(** * wxt: generation of the [.wxt] type directory

    A shallow embedding of [packages/wxt/src/core/generate-wxt-dir.ts]:
    the declaration entries, the four generators, the composer of the main
    declaration file and the orchestrator [generateWxtDir], followed by the
    properties the specification states about them.

    JavaScript strings are modelled as [string], a sequence of code units;
    the model covers the code units below 256.  Asynchronous functions are
    modelled by what they compute once awaited, [node:path] in its POSIX
    flavour.  The helpers the file imports from modules that are not part
    of the sources are parameters ([Env]), except the two the properties
    depend on, which follow the specification. *)

From Stdlib Require Import String Ascii List Bool Arith Lia NArith.
From Stdlib Require Import Sorted Permutation.
Import ListNotations.
Open Scope string_scope.
Open Scope list_scope.

(** String concatenation, the [+] and the template literals of the source. *)
Infix "+++" := String.append (right associativity, at level 60).

(** ** JavaScript strings *)

Module Js.

(** The double quote, which a string literal of this file cannot hold. *)
Definition dq : string := String (ascii_of_nat 34) "".
Definition nl : string := String (ascii_of_nat 10) "".

(** [arr.join(sep)]. *)
Definition join (sep : string) (l : list string) : string :=
  String.concat sep l.

(** [s.startsWith(p)]. *)
Definition startsWith (s p : string) : bool := String.prefix p s.

(** [s.split(c)] for a one-character separator. *)
Fixpoint split (c : ascii) (s : string) : list string :=
  match s with
  | EmptyString => [""]
  | String a s' =>
      if Ascii.eqb a c then "" :: split c s'
      else match split c s' with
           | [] => [String a ""]
           | w :: ws => String a w :: ws
           end
  end.

(** WhiteSpace and LineTerminator code units below 256. *)
Definition isWhiteSpace (a : ascii) : bool :=
  let n := nat_of_ascii a in
  ((9 <=? n) && (n <=? 13) || (n =? 32) || (n =? 160))%nat.

(** [s.trimEnd()]. *)
Fixpoint trimEnd (s : string) : string :=
  match s with
  | EmptyString => ""
  | String a s' =>
      match trimEnd s' with
      | EmptyString => if isWhiteSpace a then "" else String a ""
      | t => String a t
      end
  end.

Fixpoint drop (n : nat) (s : string) : string :=
  match n, s with
  | S n', String _ s' => drop n' s'
  | _, _ => s
  end.

(** The first occurrence of [pat] in [s]: the text before it and the text
    after it. *)
Fixpoint cut (pat s : string) : option (string * string) :=
  if String.prefix pat s then Some ("", drop (String.length pat) s)
  else match s with
       | EmptyString => None
       | String a s' =>
           match cut pat s' with
           | Some (b, r) => Some (String a b, r)
           | None => None
           end
       end.

(** GetSubstitution for a string pattern (no capture groups): in the
    replacement, [$$] stands for [$], [$&] for the matched text, [$`] for
    the text before the match and [$'] for the text after it; any other
    [$] is literal. *)
Fixpoint getSubstitution (matched before after repl : string) : string :=
  match repl with
  | EmptyString => ""
  | String a r =>
      if Ascii.eqb a "$" then
        match r with
        | String b r' =>
            if Ascii.eqb b "$" then
              "$" +++ getSubstitution matched before after r'
            else if Ascii.eqb b "&" then
              matched +++ getSubstitution matched before after r'
            else if Ascii.eqb b "`" then
              before +++ getSubstitution matched before after r'
            else if Ascii.eqb b "'" then
              after +++ getSubstitution matched before after r'
            else String a (getSubstitution matched before after r)
        | EmptyString => String a ""
        end
      else String a (getSubstitution matched before after r)
  end.

(** [s.replace(pat, repl)] with a string pattern and a string
    replacement: the first occurrence only. *)
Definition replace (s pat repl : string) : string :=
  match cut pat s with
  | Some (b, r) => b +++ getSubstitution pat b r repl +++ r
  | None => s
  end.

(** [arr.sort()] on strings: ascending by code units.  The sorted
    arrangement of a list of strings is unique, so the algorithm of the
    engine does not show; insertion is used here. *)
Fixpoint insert (x : string) (l : list string) : list string :=
  match l with
  | [] => [x]
  | y :: l' => if String.leb x y then x :: l else y :: insert x l'
  end.

Fixpoint sort (l : list string) : list string :=
  match l with
  | [] => []
  | x :: l' => insert x (sort l')
  end.

(** Truthiness of an optional string: [undefined] and [''] are falsy. *)
Definition truthy (o : option string) : bool :=
  match o with
  | Some (String _ _) => true
  | _ => false
  end.

End Js.

(** ** [node:path], POSIX flavour *)

Module Path.

Definition isAbsolute (p : string) : bool := Js.startsWith p "/".

Definition isDots (s : string) : bool := String.eqb s "..".

(** [normalizeString]: the segments of a path with [.] and empty segments
    dropped and [..] resolved; [stack] holds the segments kept so far,
    last first. *)
Fixpoint normalizeSegments (allowAboveRoot : bool)
         (stack segs : list string) : list string :=
  match segs with
  | [] => rev stack
  | s :: rest =>
      if String.eqb s "" || String.eqb s "." then
        normalizeSegments allowAboveRoot stack rest
      else if isDots s then
        match stack with
        | top :: stack' =>
            if isDots top
            then normalizeSegments allowAboveRoot
                   (if allowAboveRoot then s :: stack else stack) rest
            else normalizeSegments allowAboveRoot stack' rest
        | [] =>
            normalizeSegments allowAboveRoot
              (if allowAboveRoot then [s] else []) rest
        end
      else normalizeSegments allowAboveRoot (s :: stack) rest
  end.

(** The right-to-left loop of [resolve]: arguments are prepended until an
    absolute one has been taken. *)
Fixpoint resolveArgs (args : list string) : string * bool :=
  match args with
  | [] => ("", false)
  | p :: rest =>
      let '(acc, abs) := resolveArgs rest in
      if abs then (acc, true)
      else if String.eqb p "" then (acc, false)
      else (p +++ "/" +++ acc, isAbsolute p)
  end.

(** [resolve(...args)], the working directory being [cwd]. *)
Definition resolve (cwd : string) (args : list string) : string :=
  let '(p, abs) := resolveArgs (cwd :: args) in
  let segs := normalizeSegments (negb abs) [] (Js.split "/" p) in
  if abs then "/" +++ Js.join "/" segs
  else match segs with
       | [] => "."
       | _ => Js.join "/" segs
       end.

(** The segments of a resolved path. *)
Definition segments (p : string) : list string :=
  normalizeSegments false [] (Js.split "/" p).

Fixpoint stripCommon (a b : list string) : list string * list string :=
  match a, b with
  | x :: a', y :: b' =>
      if String.eqb x y then stripCommon a' b' else (a, b)
  | _, _ => (a, b)
  end.

(** [relative(from, to)]: one [..] for each segment of [from] below the
    common ancestor, then the segments of [to] below it. *)
Definition relative (cwd from to : string) : string :=
  if String.eqb from to then ""
  else
    let f := resolve cwd [from] in
    let t := resolve cwd [to] in
    if String.eqb f t then ""
    else
      let '(fs, ts) := stripCommon (segments f) (segments t) in
      Js.join "/" (map (fun _ => "..") fs ++ ts).

Fixpoint dropWhile (f : ascii -> bool) (l : list ascii) : list ascii :=
  match l with
  | a :: l' => if f a then dropWhile f l' else l
  | [] => []
  end.

Definition isSlash (a : ascii) : bool := Ascii.eqb a "/".

(** [dirname(path)]: the scan runs from the end of the path down to its
    second character. *)
Definition dirname (p : string) : string :=
  match p with
  | EmptyString => "."
  | String a body =>
      let r := dropWhile (fun c => negb (isSlash c))
                 (dropWhile isSlash (rev (list_ascii_of_string body))) in
      match r with
      | [] => if isSlash a then "/" else "."
      | _ :: r' =>
          match r' with
          | [] => if isSlash a then "//" else String a ""
          | _ => String a (string_of_list_ascii (rev r'))
          end
      end
  end.

End Path.

(** ** The entry model ([WxtDirEntry] of [../types]) *)

(** A file to write; [tsReference] is optional in the source. *)
Record WxtDirFileEntry := {
  path : string;
  text : string;
  tsReference : option bool
}.

(** Either a reference to an installed type package or a file to write. *)
Inductive WxtDirEntry :=
| ModuleEntry (module : string)
| FileEntry (file : WxtDirFileEntry).

(** [Message] of [./utils/i18n]. *)
Record Message := {
  name : string;
  message : option string;
  description : option string
}.

(** A global of [./utils/globals]: a name and its static type. *)
Record Global := {
  global_name : string;
  global_type : string
}.

(** The value of a key of the locale file. *)
Record MessageDetails := {
  details_message : option string;
  details_description : option string
}.

(** The entries of a parsed locale file, as [Object.entries] lists them. *)
Definition Catalog := list (string * MessageDetails).

(** Modelled from the spec: the [Entrypoint] type of [../types], which is
    not part of the sources; the specification gives an entrypoint an output
    path and an HTML flag. *)
Record Entrypoint := {
  outputPath : string;
  isHtml : bool
}.

Record UserModule := {
  module_type : string;
  module_id : string
}.

(** The fields of [wxt.config] the file reads. *)
Record Config := {
  typesDir : string;
  wxtDir : string;
  outDir : string;
  publicDir : string;
  root : string;
  outBaseDir : string;
  userModules : list UserModule;
  extensionApi : string;
  alias : list (string * string);
  default_locale : option string
}.

(** ** Effects: the disk, errors and asynchronous computations *)

Inductive Error :=
| SyntaxError              (* thrown by [JSON.parse] *)
| Thrown (what : string).  (* thrown by a collaborator *)

Inductive Result (A : Type) :=
| Ok (a : A)
| Throw (e : Error).
Arguments Ok {A} a.
Arguments Throw {A} e.

(** The disk: the directories, the files with their content, and the paths
    written so far, latest first.  Failures of the file system itself are
    outside the model. *)
Record Disk := {
  dirs : string -> bool;
  files : string -> option string;
  written : list string
}.

(** An awaited computation runs on the disk and returns or throws. *)
Definition Async (A : Type) : Type := Disk -> Disk * Result A.

Definition ret {A} (a : A) : Async A := fun d => (d, Ok a).

Definition throw {A} (e : Error) : Async A := fun d => (d, Throw e).

Definition bind {A B} (c : Async A) (k : A -> Async B) : Async B :=
  fun d => match c d with
           | (d', Ok a) => k a d'
           | (d', Throw e) => (d', Throw e)
           end.

Notation "x <- c ;; k" := (bind c (fun x => k))
  (at level 61, c at next level, right associativity).
Notation "c ;;; k" := (bind c (fun _ => k))
  (at level 61, right associativity).

(** A collaborator that returns or throws without touching the disk. *)
Definition lift {A} (r : Result A) : Async A := fun d => (d, r).

(** The hooks of [wxt.hooks] the file calls.  A handler receives the array
    and may change it in place; the model gives the array as the handlers
    leave it, or what they throw. *)
Record Hooks := {
  prepare_types : list WxtDirEntry -> Result (list WxtDirEntry);
  prepare_publicPaths : list string -> Result (list string)
}.

(** The [wxt] object. *)
Record Wxt := {
  config : Config;
  hooks : Hooks
}.

(** What the file imports from modules that are not part of the sources,
    and what it takes from the runtime. *)
Record Env := {
  getEntrypointBundlePath : Entrypoint -> string -> string -> string;
  isHtmlEntrypoint : Entrypoint -> bool;
  getGlobals : Config -> list Global;
  getEntrypointGlobals : string -> list Global;
  normalizePath : string -> string;
  (** What [await getPublicFiles()] gives in this pass. *)
  getPublicFiles : list string;
  (** [JSON.parse] on the text of a locale file; [None] when it throws. *)
  JSON_parse : string -> option Catalog;
  (** [process.cwd()]. *)
  cwd : string
}.

(** What the callbacks started by one [Promise.all] come to on the disk:
    the writes that take effect, in the order they do.  The callbacks run
    overlapped.  Under a path that one entry alone claims, the write that
    takes effect is the write of that entry; two entries that claim one
    path race, and the write that takes effect under it may carry either
    text or a blend of the two. *)
Definition CompletionOrder : Type :=
  list WxtDirFileEntry -> list WxtDirFileEntry.

(** Modelled from the spec: [parseI18nMessages] of [./utils/i18n], which is
    not part of the sources.  A message is derived from each record of the
    locale file, and an absent file gives the empty message set. *)
Definition parseI18nMessages (content : Catalog) : list Message :=
  map (fun '(key, d) =>
         {| name := key;
            message := details_message d;
            description := details_description d |}) content.

(** *** [fs-extra] *)

Definition isWithin (d p : string) : bool :=
  String.eqb p d || String.prefix (p +++ "/") d
  || (String.eqb p "/" && Path.isAbsolute d).

(** [fs.ensureDir(d)]: the directory and its ancestors exist afterwards.
    The disk is one on which the directory can be made: the rejection of
    [fs.ensureDir] when a regular file stands where a directory is needed
    is not modelled. *)
Definition ensureDir (d : string) : Async unit :=
  fun k => ({| dirs := fun p => dirs k p || isWithin d p;
               files := files k;
               written := written k |}, Ok tt).

(** [fs.exists(p)]. *)
Definition exists_ (p : string) : Async bool :=
  fun k => (k, Ok (match files k p with
                   | Some _ => true
                   | None => dirs k p
                   end)).

(** [fs.readFile(p, 'utf-8')]. *)
Definition readFile (p : string) : Async string :=
  fun k => match files k p with
           | Some content => (k, Ok content)
           | None => (k, Throw (Thrown "readFile"))
           end.

Definition writeFile (p content : string) : Async unit :=
  fun k => ({| dirs := dirs k;
               files := fun q => if String.eqb q p then Some content
                                 else files k q;
               written := p :: written k |}, Ok tt).

(** Modelled from the spec: [writeFileIfDifferent] of [./utils/fs], which
    is not part of the sources.  The content is written only if the content
    on disk differs from it, and always when the file does not exist. *)
Definition writeFileIfDifferent (p content : string) : Async unit :=
  fun k => match files k p with
           | Some old => if String.eqb old content then (k, Ok tt)
                         else writeFile p content k
           | None => writeFile p content k
           end.

(** ** The generators *)

Section Generators.

Variable env : Env.
Variable wxt : Wxt.

Definition quoted (s : string) : string := Js.dq +++ s +++ Js.dq.

(** [path.resolve] and [path.relative] in the working directory. *)
Definition resolve (args : list string) : string :=
  Path.resolve (cwd env) args.

Definition relative (from to : string) : string :=
  Path.relative (cwd env) from to.

(** [wxt.hooks.callHook(name, wxt, array)]. *)
Definition callHook {A} (handlers : Hooks -> A -> Result A) (array : A)
  : Async A :=
  lift (handlers (hooks wxt) array).

(** *** [getPathsDeclarationEntry] *)

Definition pathsTemplate : string :=
  Js.join Js.nl
    [ "// Generated by wxt";
      "import " +++ quoted "wxt/browser" +++ ";";
      "";
      "declare module " +++ quoted "wxt/browser" +++ " {";
      "  export type PublicPath =";
      "{{ union }}";
      "  type HtmlPublicPath = Extract<PublicPath, `${string}.html`>";
      "  export interface WxtRuntime {";
      "    getURL(path: PublicPath): string;";
      "    getURL(path: `${HtmlPublicPath}${string}`): string;";
      "  }";
      "}";
      "" ].

(** One member of the union. *)
Definition unionMember (p : string) : string :=
  "    | " +++ Js.dq +++ "/" +++ p +++ Js.dq.

(** The [unions] of the source: the members, sorted, one on a line. *)
Definition renderUnions (paths : list string) : string :=
  Js.join Js.nl
    (map unionMember (Js.sort (map (normalizePath env) paths))).

(** [unions || '    | never']: the empty string is falsy. *)
Definition orNever (unions : string) : string :=
  match unions with
  | EmptyString => "    | never"
  | _ => unions
  end.

(** The entry built from the paths the hook has left. *)
Definition pathsEntry (paths : list string) : WxtDirFileEntry :=
  {| path := "types/paths.d.ts";
     text := Js.replace pathsTemplate "{{ union }}"
               (orNever (renderUnions paths));
     tsReference := Some true |}.

(** The [paths] of the source before the hook runs. *)
Definition bundlePaths (entrypoints : list Entrypoint) : list string :=
  map (fun entry =>
         getEntrypointBundlePath env entry (outDir (config wxt))
           (if isHtmlEntrypoint env entry then ".html" else ".js"))
      entrypoints
  ++ getPublicFiles env.

Definition getPathsDeclarationEntry (entrypoints : list Entrypoint)
  : Async WxtDirFileEntry :=
  let paths := bundlePaths entrypoints in
  paths <- callHook prepare_publicPaths paths ;;
  ret (pathsEntry paths).

(** *** [getI18nDeclarationEntry] *)

Definition i18nTemplate : string :=
  Js.join Js.nl
    [ "// Generated by wxt";
      "import " +++ quoted "wxt/browser" +++ ";";
      "";
      "declare module " +++ quoted "wxt/browser" +++ " {";
      "  /**";
      "   * See https://developer.chrome.com/docs/extensions/reference/i18n/#method-getMessage";
      "   */";
      "  interface GetMessageOptions {";
      "    /**";
      "     * See https://developer.chrome.com/docs/extensions/reference/i18n/#method-getMessage";
      "     */";
      "    escapeLt?: boolean";
      "  }";
      "";
      "  export interface WxtI18n extends I18n.Static {";
      "{{ overrides }}";
      "  }";
      "}";
      "" ].

Definition defaultLocalePath : string :=
  resolve [ publicDir (config wxt);
            "_locales";
            match default_locale (config wxt) with
            | Some l => l
            | None => ""
            end;
            "messages.json" ].

(** The lines of the documentation comment of an overload. *)
Definition commentLines (description translation : option string)
  : list string :=
  let commentLines :=
    if Js.truthy description
    then match description with
         | Some d => Js.split (ascii_of_nat 10) d
         | None => []
         end
    else [] in
  if Js.truthy translation
  then match translation with
       | Some t =>
           (match commentLines with
            | [] => commentLines
            | _ => commentLines ++ [""]
            end) ++ [quoted t]
       | None => commentLines
       end
  else commentLines.

(** The [comment] of an overload. *)
Definition overloadComment (description translation : option string)
  : string :=
  let commentLines := commentLines description translation in
  match commentLines with
  | [] => ""
  | _ => "/**" +++ Js.nl
         +++ Js.join Js.nl
               (map (fun line => Js.trimEnd ("     * " +++ line))
                    commentLines)
         +++ Js.nl +++ "     */" +++ Js.nl +++ "    "
  end.

Definition renderGetMessageOverload
           (keyType : string) (description translation : option string)
  : string :=
  let comment := overloadComment description translation in
  "    " +++ comment +++ "getMessage(" +++ Js.nl
  +++ "      messageName: " +++ keyType +++ "," +++ Js.nl
  +++ "      substitutions?: string | string[]," +++ Js.nl
  +++ "      options?: GetMessageOptions," +++ Js.nl
  +++ "    ): string;".

(** The overload of one message. *)
Definition messageOverload (m : Message) : string :=
  renderGetMessageOverload (quoted (name m)) (description m) (message m).

(** The final overload, on the union of the keys. *)
Definition unionOverload (messages : list Message) : string :=
  renderGetMessageOverload
    (Js.join " | " (map (fun m => quoted (name m)) messages)) None None.

(** The [overrides] of the source. *)
Definition overrides (messages : list Message) : list string :=
  map messageOverload messages ++ [unionOverload messages].

(** The entry built from the messages of the default locale. *)
Definition i18nEntry (messages : list Message) : WxtDirFileEntry :=
  {| path := "types/i18n.d.ts";
     text := Js.replace i18nTemplate "{{ overrides }}"
               (Js.join Js.nl (overrides messages));
     tsReference := Some true |}.

(** Lines 140 to 146: the messages of the default locale. *)
Definition loadMessages : Async (list Message) :=
  found <- exists_ defaultLocalePath ;;
  if found : bool then
    raw <- readFile defaultLocalePath ;;
    match JSON_parse env raw with
    | Some content => ret (parseI18nMessages content)
    | None => throw SyntaxError
    end
  else ret (parseI18nMessages []).

Definition getI18nDeclarationEntry : Async WxtDirFileEntry :=
  messages <- loadMessages ;;
  ret (i18nEntry messages).

(** *** [getGlobalsDeclarationEntry] *)

Definition getGlobalsDeclarationEntry : WxtDirFileEntry :=
  let globals :=
    getGlobals env (config wxt) ++ getEntrypointGlobals env "" in
  {| path := "types/globals.d.ts";
     text := Js.join Js.nl
               ([ "// Generated by wxt";
                  "interface ImportMetaEnv {" ]
                ++ map (fun global =>
                          "  readonly " +++ global_name global +++ ": "
                          +++ global_type global +++ ";") globals
                ++ [ "}";
                     "interface ImportMeta {";
                     "  readonly env: ImportMetaEnv";
                     "}";
                     "" ]);
     tsReference := Some true |}.

(** *** [getMainDeclarationEntry] *)

(** What one entry pushes to [lines]. *)
Definition referenceLines (ref : WxtDirEntry) : list string :=
  match ref with
  | ModuleEntry m =>
      [ "/// <reference types=" +++ quoted m +++ " />" ]
  | FileEntry f =>
      match tsReference f with
      | Some true =>
          let absolutePath := resolve [wxtDir (config wxt); path f] in
          let relativePath := relative (wxtDir (config wxt)) absolutePath in
          [ "/// <reference types="
            +++ quoted ("./" +++ normalizePath env relativePath)
            +++ " />" ]
      | _ => []
      end
  end.

Definition mainLines (references : list WxtDirEntry) : list string :=
  "// Generated by wxt" :: flat_map referenceLines references.

Definition getMainDeclarationEntry (references : list WxtDirEntry)
  : WxtDirFileEntry :=
  {| path := "wxt.d.ts";
     text := Js.join Js.nl (mainLines references) +++ Js.nl;
     tsReference := None |}.

(** *** [getTsConfigEntry] *)

Definition getTsconfigPath (p : string) : string :=
  let res := normalizePath env (relative (wxtDir (config wxt)) p) in
  if Js.startsWith res "." || Js.startsWith res "/" then res
  else "./" +++ res.

(** The two lines of one alias. *)
Definition aliasLines (a : string * string) : list string :=
  let '(alias, absolutePath) := a in
  let aliasPath := getTsconfigPath absolutePath in
  [ "      " +++ quoted alias +++ ": [" +++ quoted aliasPath +++ "]";
    "      " +++ quoted (alias +++ "/*") +++ ": ["
    +++ quoted (aliasPath +++ "/*") +++ "]" ].

(** The [paths] of the source. *)
Definition tsconfigPaths : string :=
  Js.join ("," +++ Js.nl) (flat_map aliasLines (alias (config wxt))).

Definition getTsConfigEntry : WxtDirFileEntry :=
  {| path := "tsconfig.json";
     text :=
       Js.join Js.nl
         [ "{";
           "  " +++ quoted "compilerOptions" +++ ": {";
           "    " +++ quoted "target" +++ ": " +++ quoted "ESNext" +++ ",";
           "    " +++ quoted "module" +++ ": " +++ quoted "ESNext" +++ ",";
           "    " +++ quoted "moduleResolution" +++ ": "
           +++ quoted "Bundler" +++ ",";
           "    " +++ quoted "noEmit" +++ ": true,";
           "    " +++ quoted "esModuleInterop" +++ ": true,";
           "    " +++ quoted "forceConsistentCasingInFileNames"
           +++ ": true,";
           "    " +++ quoted "resolveJsonModule" +++ ": true,";
           "    " +++ quoted "strict" +++ ": true,";
           "    " +++ quoted "skipLibCheck" +++ ": true,";
           "    " +++ quoted "paths" +++ ": {";
           tsconfigPaths;
           "    }";
           "  },";
           "  " +++ quoted "include" +++ ": [";
           "    "
           +++ quoted (getTsconfigPath (root (config wxt)) +++ "/**/*")
           +++ ",";
           "    " +++ quoted "./wxt.d.ts";
           "  ],";
           "  " +++ quoted "exclude" +++ ": ["
           +++ quoted (getTsconfigPath (outBaseDir (config wxt))) +++ "]";
           "}" ];
     tsReference := None |}.

(** ** [generateWxtDir] *)

(** The module entries of the user modules installed from NPM. *)
Definition userModuleEntries : list WxtDirEntry :=
  flat_map (fun module =>
              if String.eqb (module_type module) "node_module"
              then [ModuleEntry (module_id module)]
              else [])
           (userModules (config wxt)).

(** The [@types/chrome] entry. *)
Definition chromeEntries : list WxtDirEntry :=
  if String.eqb (extensionApi (config wxt)) "chrome"
  then [ModuleEntry "@types/chrome"]
  else [].

(** The entries as they stand when the [prepare:types] hook is called. *)
Definition coreEntries (pathsE i18nE : WxtDirFileEntry)
  : list WxtDirEntry :=
  [ModuleEntry "wxt/vite-builder-env"] ++ userModuleEntries
  ++ [FileEntry pathsE; FileEntry i18nE;
      FileEntry getGlobalsDeclarationEntry]
  ++ chromeEntries ++ [FileEntry getTsConfigEntry].

(** Lines 18 to 52: the entries, the main declaration file last. *)
Definition collectEntries (entrypoints : list Entrypoint)
  : Async (list WxtDirEntry) :=
  let entries := [ModuleEntry "wxt/vite-builder-env"] in
  let entries := entries ++ userModuleEntries in
  pathsE <- getPathsDeclarationEntry entrypoints ;;
  let entries := entries ++ [FileEntry pathsE] in
  i18nE <- getI18nDeclarationEntry ;;
  let entries := entries ++ [FileEntry i18nE] in
  globalsE <- ret getGlobalsDeclarationEntry ;;
  let entries := entries ++ [FileEntry globalsE] in
  let entries := entries ++ chromeEntries in
  tsconfigE <- ret getTsConfigEntry ;;
  let entries := entries ++ [FileEntry tsconfigE] in
  entries <- callHook prepare_types entries ;;
  ret (entries ++ [FileEntry (getMainDeclarationEntry entries)]).

(** [entries.filter((entry) => 'path' in entry)]. *)
Definition fileEntries (entries : list WxtDirEntry)
  : list WxtDirFileEntry :=
  flat_map (fun entry =>
              match entry with
              | FileEntry f => [f]
              | ModuleEntry _ => []
              end) entries.

Definition absoluteFileEntries (entries : list WxtDirEntry)
  : list WxtDirFileEntry :=
  map (fun entry =>
         {| path := resolve [wxtDir (config wxt); path entry];
            text := text entry;
            tsReference := tsReference entry |})
      (fileEntries entries).

(** The callback of the write loop. *)
Definition writeEntry (file : WxtDirFileEntry) : Async unit :=
  ensureDir (Path.dirname (path file)) ;;;
  writeFileIfDifferent (path file) (text file).

Fixpoint writeEach (l : list WxtDirFileEntry) : Async unit :=
  match l with
  | [] => ret tt
  | file :: l' => writeEntry file ;;; writeEach l'
  end.

(** [Promise.all] over the callbacks of the write loop: the runtime
    decides what the overlapping callbacks come to, and the writes that
    take effect are applied one after the other. *)
Definition writeAll (completionOrder : CompletionOrder)
           (l : list WxtDirFileEntry) : Async unit :=
  writeEach (completionOrder l).

Definition generateWxtDir (completionOrder : CompletionOrder)
           (entrypoints : list Entrypoint) : Async unit :=
  ensureDir (typesDir (config wxt)) ;;;
  entries <- collectEntries entrypoints ;;
  writeAll completionOrder (absoluteFileEntries entries).

End Generators.

(** The disk once the types directory has been ensured. *)
Definition ensured (wxt : Wxt) (k : Disk) : Disk :=
  fst (ensureDir (typesDir (config wxt)) k).

(** ** A sample project *)

(** Modelled from the spec: [normalizePath] of [./utils/paths], which is
    not part of the sources.  Every path is normalized to forward-slash
    form. *)
Fixpoint forwardSlashes (s : string) : string :=
  match s with
  | EmptyString => ""
  | String a s' =>
      String (if Ascii.eqb a "\" then "/"%char else a) (forwardSlashes s')
  end.

Definition emptyDisk : Disk :=
  {| dirs := fun _ => false; files := fun _ => None; written := [] |}.

Definition sampleEnv : Env :=
  {| getEntrypointBundlePath := fun e _ ext => outputPath e +++ ext;
     isHtmlEntrypoint := isHtml;
     getGlobals := fun _ =>
       [ {| global_name := "MANIFEST_VERSION"; global_type := "2 | 3" |} ];
     getEntrypointGlobals := fun _ =>
       [ {| global_name := "ENTRYPOINT"; global_type := "string" |} ];
     normalizePath := forwardSlashes;
     getPublicFiles := ["c.png"];
     JSON_parse := fun raw =>
       if String.eqb raw "{}" then Some [] else None;
     cwd := "/project" |}.

Definition sampleConfig : Config :=
  {| typesDir := "/project/.generated/types";
     wxtDir := "/project/.generated";
     outDir := "/project/.output/chrome-mv3";
     publicDir := "/project/public";
     root := "/project";
     outBaseDir := "/project/.output";
     userModules :=
       [ {| module_type := "node_module"; module_id := "@wxt-dev/i18n" |};
         {| module_type := "local"; module_id := "my-module" |} ];
     extensionApi := "chrome";
     alias := [("@", "/project/src")];
     default_locale := Some "en" |}.

(** The hooks of a project whose modules contribute [extra] to the entries
    and leave the public paths alone. *)
Definition appending (extra : list WxtDirEntry) : Hooks :=
  {| prepare_types := fun entries => Ok (entries ++ extra);
     prepare_publicPaths := fun paths => Ok paths |}.

Definition sampleWxt : Wxt :=
  {| config := sampleConfig; hooks := appending [] |}.

(** A project with one public file, whose name holds two dollar signs. *)
Definition dollarEnv : Env :=
  {| getEntrypointBundlePath := getEntrypointBundlePath sampleEnv;
     isHtmlEntrypoint := isHtmlEntrypoint sampleEnv;
     getGlobals := getGlobals sampleEnv;
     getEntrypointGlobals := getEntrypointGlobals sampleEnv;
     normalizePath := forwardSlashes;
     getPublicFiles := ["a$$b.png"];
     JSON_parse := JSON_parse sampleEnv;
     cwd := "/project" |}.

(** The locale file of the specification: two messages. *)
Definition greetings : Catalog :=
  [ ("greet",
     {| details_message := Some "Hello"; details_description := None |});
    ("farewell",
     {| details_message := Some "Bye"; details_description := None |}) ].

(** A project whose module contributes a file entry under the path of the
    paths declaration file. *)
Definition clashingWxt : Wxt :=
  {| config := sampleConfig;
     hooks := appending
       [ FileEntry {| path := "types/paths.d.ts";
                      text := "// mine";
                      tsReference := None |} ] |}.

(** A disk whose default locale file is not JSON. *)
Definition brokenDisk : Disk :=
  {| dirs := fun _ => false;
     files := fun p =>
       if String.eqb p "/project/public/_locales/en/messages.json"
       then Some "{" else None;
     written := [] |}.

(** A disk that holds a main declaration file of an earlier pass. *)
Definition staleDisk : Disk :=
  {| dirs := fun _ => false;
     files := fun p =>
       if String.eqb p "/project/.generated/wxt.d.ts"
       then Some "// old" else None;
     written := [] |}.

Definition sampleEntrypoints : list Entrypoint :=
  [ {| outputPath := "b"; isHtml := false |};
    {| outputPath := "a"; isHtml := true |} ].

(** The writes complete in the order they were started. *)
Definition inOrder : CompletionOrder := fun l => l.

(** The writes complete in the opposite order. *)
Definition reversed : CompletionOrder := fun l => rev l.

(** The entries of the sample project. *)
Definition sampleFinal : list WxtDirEntry :=
  match snd (collectEntries sampleEnv sampleWxt sampleEntrypoints
               emptyDisk) with
  | Ok final => final
  | Throw _ => []
  end.


(** ** The vocabulary of the properties *)

(** The comment a generated file starts with. *)
Definition marker : string := "// Generated by wxt".

Definition beginsWithMarker (f : WxtDirFileEntry) : bool :=
  Js.startsWith (text f) marker.

(** A replacement is free of patterns when no [$] of it is followed by one
    of the characters [$], [&], the backquote and the quote. *)
Definition isPatternChar (b : ascii) : bool :=
  Ascii.eqb b "$" || Ascii.eqb b "&" || Ascii.eqb b "`" || Ascii.eqb b "'".

Fixpoint patternFree (s : string) : bool :=
  match s with
  | EmptyString => true
  | String a r =>
      (if Ascii.eqb a "$"
       then match r with
            | String b _ => negb (isPatternChar b)
            | EmptyString => true
            end
       else true) && patternFree r
  end.

(** The template of the paths file around its placeholder. *)
Definition pathsBefore : string :=
  Eval vm_compute in
    match Js.cut "{{ union }}" pathsTemplate with
    | Some (b, _) => b
    | None => ""
    end.

Definition pathsAfter : string :=
  Eval vm_compute in
    match Js.cut "{{ union }}" pathsTemplate with
    | Some (_, r) => r
    | None => ""
    end.

(** The template of the i18n file around its placeholder. *)
Definition i18nBefore : string :=
  Eval vm_compute in
    match Js.cut "{{ overrides }}" i18nTemplate with
    | Some (b, _) => b
    | None => ""
    end.

Definition i18nAfter : string :=
  Eval vm_compute in
    match Js.cut "{{ overrides }}" i18nTemplate with
    | Some (_, r) => r
    | None => ""
    end.

(** An overload of [getMessage] whose first parameter has type
    [keyType]. *)
Definition overloadOn (keyType : string) : string :=
  "getMessage(" +++ Js.nl
  +++ "      messageName: " +++ keyType +++ "," +++ Js.nl
  +++ "      substitutions?: string | string[]," +++ Js.nl
  +++ "      options?: GetMessageOptions," +++ Js.nl
  +++ "    ): string;".

(** An entry contributes to the main declaration file when it is a module
    entry or a file entry with the [tsReference] flag. *)
Definition contributes (e : WxtDirEntry) : bool :=
  match e with
  | ModuleEntry _ => true
  | FileEntry f =>
      match tsReference f with
      | Some true => true
      | _ => false
      end
  end.

(** The reference to an installed type package, by its name. *)
Definition packageReference (m : string) : string :=
  "/// <reference types=" +++ quoted m +++ " />".

(** The path of a file entry, relative to the output root. *)
Definition relativeToOutputRoot (env : Env) (wxt : Wxt) (p : string)
  : string :=
  relative env (wxtDir (config wxt)) (resolve env [wxtDir (config wxt); p]).

(** The reference to a generated file, by its path relative to the output
    root. *)
Definition fileReference (env : Env) (wxt : Wxt) (p : string) : string :=
  "/// <reference types="
  +++ quoted ("./" +++ normalizePath env (relativeToOutputRoot env wxt p))
  +++ " />".

(** The directive of a contributing entry. *)
Definition directive (env : Env) (wxt : Wxt) (e : WxtDirEntry) : string :=
  match e with
  | ModuleEntry m => packageReference m
  | FileEntry f => fileReference env wxt (path f)
  end.



Definition isModuleEntry (e : WxtDirEntry) : bool :=
  match e with
  | ModuleEntry _ => true
  | FileEntry _ => false
  end.

(** The order of the entries as the specification states it: the
    hard-coded entries, which are module entries, then the entries of the
    generators, which are file entries, then the entries of the hook, then
    the main declaration entry. *)
Definition statedOrder (final extra : list WxtDirEntry) : Prop :=
  exists hard generated main,
    forallb isModuleEntry hard = true
    /\ forallb (fun e => negb (isModuleEntry e)) generated = true
    /\ final = hard ++ generated ++ extra ++ [FileEntry main].


(** A segment without a slash. *)
Fixpoint noSlash (s : string) : bool :=
  match s with
  | EmptyString => true
  | String a s' => negb (Ascii.eqb a "/") && noSlash s'
  end.

(** A clean segment of a path: not empty, without a slash, and neither
    [.] nor [..]. *)
Definition clean (s : string) : bool :=
  noSlash s && negb (String.eqb s "") && negb (String.eqb s ".")
  && negb (String.eqb s "..").

Definition nonEmpty (s : string) : bool := negb (String.eqb s "").

(** Two lists of segments that do not start with the same segment. *)
Definition headsDiffer (a b : list string) : bool :=
  match a, b with
  | x :: _, y :: _ => negb (String.eqb x y)
  | _, _ => true
  end.


(** Ascending order of strings by code units. *)
Definition ascending : list string -> Prop :=
  Sorted (fun x y => String.leb x y = true).

(** A string of white space only. *)
Fixpoint allWhiteSpace (s : string) : bool :=
  match s with
  | EmptyString => true
  | String a r => Js.isWhiteSpace a && allWhiteSpace r
  end.

(** A string whose last code unit is white space. *)
Fixpoint endsWithWhiteSpace (s : string) : bool :=
  match s with
  | EmptyString => false
  | String a EmptyString => Js.isWhiteSpace a
  | String _ r => endsWithWhiteSpace r
  end.

(** The string of an optional string, empty when it is absent. *)
Definition orEmpty (o : option string) : string :=
  match o with
  | Some s => s
  | None => ""
  end.

(** A project whose module throws in the hook of the types. *)
Definition throwingWxt : Wxt :=
  {| config := sampleConfig;
     hooks := {| prepare_types := fun _ => Throw (Thrown "module");
                 prepare_publicPaths := fun paths => Ok paths |} |}.

(** An entry that alone claims its path among the entries [l]. *)
Definition alone (l : list WxtDirFileEntry) (f : WxtDirFileEntry) : Prop :=
  filter (fun g => String.eqb (path g) (path f)) l = [f].

(** What a runtime makes of overlapping callbacks: it writes under the
    paths of the entries and under no other path, it writes under the path
    of every entry, and under a path that one entry alone claims it writes
    the text of that entry.  Nothing is said of the text written under a
    path that several entries claim. *)
Definition overlapping (completionOrder : CompletionOrder) : Prop :=
  forall l,
    (forall g, In g (completionOrder l) -> In (path g) (map (@path) l))
    /\ (forall f, In f l -> In (path f) (map (@path) (completionOrder l)))
    /\ (forall f g, In f l -> alone l f -> In g (completionOrder l) ->
                    path g = path f -> text g = text f).

(** A project whose module contributes a file entry with the
    [tsReference] flag under the path [p]. *)
Definition flagging (p : string) : Wxt :=
  {| config := sampleConfig;
     hooks := appending
       [ FileEntry {| path := p;
                      text := "// mine";
                      tsReference := Some true |} ] |}.

(** The entries of the project whose module contributes a flagged entry
    under the path [p]. *)
Definition flaggedFinal (p : string) : list WxtDirEntry :=
  match snd (collectEntries sampleEnv (flagging p) sampleEntrypoints
               emptyDisk) with
  | Ok final => final
  | Throw _ => []
  end.

(** A line of a comment, as it is written. *)
Definition commentLine (line : string) : string :=
  if allWhiteSpace line then "     *"
  else "     * " +++ Js.trimEnd line.

Example split_ex : Js.split "/" "/a//b/" = [""; "a"; ""; "b"; ""].
Proof. reflexivity. Qed.

Example trimEnd_ex : Js.trimEnd "     * " = "     *".
Proof. reflexivity. Qed.

Example replace_ex :
  Js.replace "x{{ u }}y" "{{ u }}" "a$$b$&c$1" = "xa$b{{ u }}c$1y".
Proof. reflexivity. Qed.

Example sort_ex : Js.sort ["b.js"; "a.html"; "c.png"; "B"] =
                  ["B"; "a.html"; "b.js"; "c.png"].
Proof. reflexivity. Qed.

Example resolve_ex :
  Path.resolve "/cwd" ["/project/.wxt"; "types/../wxt.d.ts"] =
  "/project/.wxt/wxt.d.ts".
Proof. reflexivity. Qed.

Example resolve_ex2 :
  Path.resolve "/cwd" ["pub"; "_locales"; ""; "messages.json"] =
  "/cwd/pub/_locales/messages.json".
Proof. reflexivity. Qed.

Example relative_ex :
  Path.relative "/cwd" "/project/.generated" "/project/src" = "../src".
Proof. reflexivity. Qed.

Example relative_ex2 :
  Path.relative "/cwd" "/foo/bar" "/foo/barbaz/q" = "../barbaz/q".
Proof. reflexivity. Qed.

Example dirname_ex :
  map Path.dirname ["/a/b/c.d.ts"; "/a"; "a/b/"; "//x"; "x"; "/"; "ab/c"] =
  ["/a/b"; "/"; "a"; "//"; "."; "/"; "ab"].
Proof. reflexivity. Qed.

(** ** Strings *)

Lemma append_assoc (a b c : string) : (a +++ b) +++ c = a +++ b +++ c.
Proof.
  induction a as [|x a IH]; simpl; [reflexivity | now rewrite IH].
Qed.


Lemma prefix_append (p s : string) : String.prefix p (p +++ s) = true.
Proof.
  induction p as [|x p IH]; simpl.
  - now destruct s.
  - destruct (ascii_dec x x) as [_|n]; [exact IH | now elim n].
Qed.

Lemma startsWith_append (p s : string) : Js.startsWith (p +++ s) p = true.
Proof. apply prefix_append. Qed.

(** A replacement that is free of patterns is inserted as it is. *)
Lemma getSubstitution_patternFree (m b r s : string) :
  patternFree s = true -> Js.getSubstitution m b r s = s.
Proof.
  induction s as [|x s IH]; intros H; [reflexivity|].
  simpl in H. apply andb_true_iff in H. destruct H as [Hx Hs].
  specialize (IH Hs).
  cbn [Js.getSubstitution].
  destruct (Ascii.eqb x "$") eqn:Ex; [|now rewrite IH].
  destruct s as [|y s']; [reflexivity|].
  unfold isPatternChar in Hx.
  apply negb_true_iff in Hx.
  apply orb_false_iff in Hx as [Hx H4].
  apply orb_false_iff in Hx as [Hx H3].
  apply orb_false_iff in Hx as [H1 H2].
  rewrite H1, H2, H3, H4. now rewrite IH.
Qed.

Lemma replace_cut (s pat repl b r : string) :
  Js.cut pat s = Some (b, r) ->
  Js.replace s pat repl = b +++ Js.getSubstitution pat b r repl +++ r.
Proof. intros H. unfold Js.replace. now rewrite H. Qed.

Lemma cut_pathsTemplate :
  Js.cut "{{ union }}" pathsTemplate = Some (pathsBefore, pathsAfter).
Proof. vm_compute. reflexivity. Qed.

Lemma cut_i18nTemplate :
  Js.cut "{{ overrides }}" i18nTemplate = Some (i18nBefore, i18nAfter).
Proof. vm_compute. reflexivity. Qed.

(** *** Substitution *)

Section Substitution.
Variables m b r : string.

Local Notation "'G'" := (Js.getSubstitution m b r).











End Substitution.

(** *** Sorting *)

Lemma insert_perm (x : string) (l : list string) :
  Permutation (x :: l) (Js.insert x l).
Proof.
  induction l as [|y l IH]; simpl; [constructor; constructor|].
  destruct (String.leb x y); [apply Permutation_refl|].
  eapply perm_trans; [apply perm_swap|]. now constructor.
Qed.

Lemma sort_perm (l : list string) : Permutation l (Js.sort l).
Proof.
  induction l as [|x l IH]; simpl; [constructor|].
  eapply perm_trans; [|apply insert_perm]. now constructor.
Qed.

Lemma leb_false_flip (x y : string) :
  String.leb x y = false -> String.leb y x = true.
Proof.
  intros H. destruct (String.leb_total x y) as [E|E]; [congruence|exact E].
Qed.

Lemma insert_ascending (x : string) (l : list string) :
  ascending l -> ascending (Js.insert x l).
Proof.
  unfold ascending.
  induction l as [|y l IH]; intros Hl; simpl.
  - repeat constructor.
  - destruct (String.leb x y) eqn:E.
    + constructor; [exact Hl | constructor; exact E].
    + inversion Hl as [|? ? Hl' Hd]; subst.
      constructor; [now apply IH|].
      destruct l as [|z l]; simpl.
      * constructor. now apply leb_false_flip.
      * destruct (String.leb x z); constructor.
        -- now apply leb_false_flip.
        -- now inversion Hd.
Qed.

Lemma sort_ascending (l : list string) : ascending (Js.sort l).
Proof.
  induction l as [|x l IH]; simpl; [constructor|].
  now apply insert_ascending.
Qed.

Lemma sort_nil_iff (l : list string) : Js.sort l = [] <-> l = [].
Proof.
  split; intros H; [|now subst].
  pose proof (sort_perm l) as P. rewrite H in P.
  now apply Permutation_sym, Permutation_nil in P.
Qed.

(** ** Paths of clean segments *)

Lemma split_noSlash (s : string) :
  noSlash s = true -> Js.split "/" s = [s].
Proof.
  induction s as [|a s IH]; [reflexivity|].
  cbn. intros H. apply andb_true_iff in H as [Ha Hs].
  apply negb_true_iff in Ha. rewrite Ha, (IH Hs). reflexivity.
Qed.

Lemma split_segment (s r : string) :
  noSlash s = true ->
  Js.split "/" (s +++ "/" +++ r) = s :: Js.split "/" r.
Proof.
  induction s as [|a s IH]; [reflexivity|].
  cbn. intros H. apply andb_true_iff in H as [Ha Hs].
  apply negb_true_iff in Ha. rewrite Ha. cbn in IH. now rewrite (IH Hs).
Qed.

Lemma clean_noSlash (s : string) : clean s = true -> noSlash s = true.
Proof.
  unfold clean. intros H.
  repeat (apply andb_true_iff in H as [H ?]). exact H.
Qed.

Lemma join_cons2 (sep x y : string) (l : list string) :
  Js.join sep (x :: y :: l) = x +++ sep +++ Js.join sep (y :: l).
Proof. reflexivity. Qed.

(** Splitting a path that starts with clean segments. *)
Lemma split_join_then (segs : list string) (r : string) :
  forallb clean segs = true -> segs <> [] ->
  Js.split "/" (Js.join "/" segs +++ "/" +++ r) = segs ++ Js.split "/" r.
Proof.
  induction segs as [|s l IH]; [easy|].
  intros H _. cbn [forallb] in H. apply andb_true_iff in H as [Hs Hl].
  destruct l as [|t l].
  - cbn [Js.join String.concat app]. apply split_segment.
    now apply clean_noSlash.
  - rewrite join_cons2, append_assoc.
    change (("/" +++ Js.join "/" (t :: l)) +++ "/" +++ r)
      with ("/" +++ (Js.join "/" (t :: l) +++ "/" +++ r)).
    rewrite split_segment by now apply clean_noSlash.
    cbn [app]. f_equal. apply IH; [exact Hl | discriminate].
Qed.

Lemma split_join (segs : list string) :
  forallb clean segs = true -> segs <> [] ->
  Js.split "/" (Js.join "/" segs) = segs.
Proof.
  induction segs as [|s l IH]; [easy|].
  intros H _. cbn [forallb] in H. apply andb_true_iff in H as [Hs Hl].
  destruct l as [|t l].
  - apply split_noSlash. now apply clean_noSlash.
  - rewrite join_cons2, split_segment by now apply clean_noSlash.
    f_equal. apply IH; [exact Hl | discriminate].
Qed.

Lemma normalizeSegments_clean (stack l : list string) :
  forallb (fun s => String.eqb s "" || clean s) l = true ->
  Path.normalizeSegments false stack l = rev stack ++ filter nonEmpty l.
Proof.
  revert stack. induction l as [|s l IH]; intros stack H.
  - cbn. now rewrite app_nil_r.
  - cbn [forallb] in H. apply andb_true_iff in H as [Hs Hl].
    cbn [Path.normalizeSegments filter]. unfold nonEmpty at 1.
    destruct (String.eqb s "") eqn:E0; cbn [orb negb].
    + now apply IH.
    + cbn [orb] in Hs. unfold clean in Hs.
      repeat (apply andb_true_iff in Hs as [Hs ?]).
      repeat match goal with
             | H : negb _ = true |- _ => apply negb_true_iff in H
             end.
      unfold Path.isDots.
      match goal with
      | H : String.eqb s "." = false |- _ => rewrite H
      end.
      match goal with
      | H : String.eqb s ".." = false |- _ => rewrite H
      end.
      rewrite IH by exact Hl. cbn [rev]. now rewrite <- app_assoc.
Qed.

Lemma filter_nonEmpty_clean (l : list string) :
  forallb clean l = true -> filter nonEmpty l = l.
Proof.
  induction l as [|s l IH]; [reflexivity|].
  cbn [forallb filter]. intros H. apply andb_true_iff in H as [Hs Hl].
  unfold nonEmpty at 1. unfold clean in Hs.
  repeat (apply andb_true_iff in Hs as [Hs ?]).
  match goal with
  | H : negb (String.eqb s "") = true |- _ => rewrite H
  end.
  now rewrite IH.
Qed.

Lemma forallb_clean_weaken (l : list string) :
  forallb clean l = true ->
  forallb (fun s => String.eqb s "" || clean s) l = true.
Proof.
  intros H. rewrite forallb_forall in *. intros x Hx.
  rewrite (H x Hx). apply orb_true_r.
Qed.

(** The segments of an absolute path of clean segments, with and without
    a slash at its end. *)
Lemma segments_absolute (segs : list string) :
  forallb clean segs = true ->
  Path.normalizeSegments false [] (Js.split "/" ("/" +++ Js.join "/" segs))
  = segs
  /\ Path.normalizeSegments false []
       (Js.split "/" ("/" +++ Js.join "/" segs +++ "/")) = segs.
Proof.
  intros H.
  destruct segs as [|s l]; [split; reflexivity|].
  split.
  - change (Js.split "/" ("/" +++ Js.join "/" (s :: l)))
      with ("" :: Js.split "/" (Js.join "/" (s :: l))).
    rewrite split_join by (exact H || discriminate).
    rewrite normalizeSegments_clean.
    + change (filter nonEmpty ("" :: s :: l))
        with (filter nonEmpty (s :: l)).
      now apply filter_nonEmpty_clean.
    + change (forallb (fun s => String.eqb s "" || clean s)
                ("" :: s :: l))
        with (forallb (fun s => String.eqb s "" || clean s) (s :: l)).
      now apply forallb_clean_weaken.
  - change (Js.split "/" ("/" +++ Js.join "/" (s :: l) +++ "/"))
      with ("" :: Js.split "/" (Js.join "/" (s :: l) +++ "/" +++ "")).
    rewrite split_join_then by (exact H || discriminate).
    rewrite normalizeSegments_clean.
    + change (filter nonEmpty ("" :: (s :: l) ++ Js.split "/" ""))
        with (filter nonEmpty ((s :: l) ++ [""])).
      rewrite filter_app.
      change (filter nonEmpty [""]) with (@nil string).
      rewrite app_nil_r. now apply filter_nonEmpty_clean.
    + change (forallb (fun s => String.eqb s "" || clean s)
                ("" :: (s :: l) ++ Js.split "/" ""))
        with (forallb (fun s => String.eqb s "" || clean s)
                ((s :: l) ++ [""])).
      rewrite forallb_app, (forallb_clean_weaken _ H). reflexivity.
Qed.

Lemma join_app_clean (a b : list string) :
  a <> [] -> b <> [] ->
  Js.join "/" (a ++ b) = Js.join "/" a +++ "/" +++ Js.join "/" b.
Proof.
  induction a as [|x a IH]; [easy|]. intros _ Hb.
  destruct a as [|y a].
  - destruct b; [easy | reflexivity].
  - cbn [app]. rewrite !join_cons2.
    specialize (IH ltac:(discriminate) Hb). cbn [app] in IH. rewrite IH.
    now rewrite !append_assoc.
Qed.

Lemma isAbsolute_cons (a : ascii) (s : string) :
  Ascii.eqb a "/" = false -> Path.isAbsolute (String a s) = false.
Proof.
  intros H. unfold Path.isAbsolute, Js.startsWith. cbn [String.prefix].
  destruct (ascii_dec "/" a) as [E|E]; [|reflexivity].
  subst a. rewrite Ascii.eqb_refl in H. discriminate.
Qed.

Lemma isAbsolute_join_clean (segs : list string) :
  forallb clean segs = true -> Path.isAbsolute (Js.join "/" segs) = false.
Proof.
  destruct segs as [|s l]; [reflexivity|].
  cbn [forallb]. intros H. apply andb_true_iff in H as [Hs _].
  unfold clean in Hs. repeat (apply andb_true_iff in Hs as [Hs ?]).
  destruct s as [|a s]; [discriminate|].
  cbn [noSlash] in Hs. apply andb_true_iff in Hs as [Ha _].
  apply negb_true_iff in Ha.
  destruct l; unfold Js.join; cbn [String.concat String.append];
    now apply isAbsolute_cons.
Qed.

Lemma join_clean_nonempty (segs : list string) :
  forallb clean segs = true -> segs <> [] ->
  String.eqb (Js.join "/" segs) "" = false.
Proof.
  destruct segs as [|s l]; [easy|].
  cbn [forallb]. intros H _. apply andb_true_iff in H as [Hs _].
  unfold clean in Hs. repeat (apply andb_true_iff in Hs as [Hs ?]).
  destruct s as [|a s]; [discriminate|].
  now destruct l.
Qed.

(** [resolve] on an absolute directory and a relative path, both of clean
    segments. *)
Lemma resolve_clean (cwd : string) (dsegs psegs : list string) :
  forallb clean dsegs = true -> forallb clean psegs = true ->
  psegs <> [] ->
  Path.resolve cwd ["/" +++ Js.join "/" dsegs; Js.join "/" psegs]
  = "/" +++ Js.join "/" (dsegs ++ psegs).
Proof.
  intros Hd Hp Hne.
  unfold Path.resolve. cbn [Path.resolveArgs].
  rewrite (join_clean_nonempty _ Hp Hne), (isAbsolute_join_clean _ Hp).
  replace (String.eqb ("/" +++ Js.join "/" dsegs) "") with false
    by reflexivity.
  replace (Path.isAbsolute ("/" +++ Js.join "/" dsegs)) with true
    by (unfold Path.isAbsolute, Js.startsWith; cbn [String.append String.prefix];
        now destruct (Js.join "/" dsegs)).
  cbn iota beta. cbn [negb]. f_equal. f_equal.
  assert (Hall : forallb clean (dsegs ++ psegs) = true)
    by now rewrite forallb_app, Hd, Hp.
  destruct dsegs as [|d dl].
  - change (Js.split "/" (("/" +++ Js.join "/" []) +++ "/"
                          +++ Js.join "/" psegs +++ "/" +++ ""))
      with ("" :: "" :: Js.split "/" (Js.join "/" psegs +++ "/" +++ "")).
    cbn [app].
    rewrite split_join_then by assumption.
    rewrite normalizeSegments_clean.
    + change (filter nonEmpty ("" :: "" :: psegs ++ Js.split "/" ""))
        with (filter nonEmpty (psegs ++ [""])).
      rewrite filter_app. change (filter nonEmpty [""]) with (@nil string).
      rewrite app_nil_r. now apply filter_nonEmpty_clean.
    + change (forallb (fun s => String.eqb s "" || clean s)
                ("" :: "" :: psegs ++ Js.split "/" ""))
        with (forallb (fun s => String.eqb s "" || clean s)
                (psegs ++ [""])).
      rewrite forallb_app, (forallb_clean_weaken _ Hp). reflexivity.
  - replace (("/" +++ Js.join "/" (d :: dl)) +++ "/"
             +++ Js.join "/" psegs +++ "/" +++ "")
      with ("/" +++ Js.join "/" ((d :: dl) ++ psegs) +++ "/").
    + apply (segments_absolute _ Hall).
    + rewrite join_app_clean by (discriminate || assumption).
      rewrite !append_assoc. reflexivity.
Qed.

Lemma resolve_absolute_clean (cwd : string) (segs : list string) :
  forallb clean segs = true ->
  Path.resolve cwd ["/" +++ Js.join "/" segs] = "/" +++ Js.join "/" segs.
Proof.
  intros H. unfold Path.resolve. cbn [Path.resolveArgs].
  replace (String.eqb ("/" +++ Js.join "/" segs) "") with false
    by reflexivity.
  replace (Path.isAbsolute ("/" +++ Js.join "/" segs)) with true
    by (unfold Path.isAbsolute, Js.startsWith;
        cbn [String.append String.prefix];
        now destruct (Js.join "/" segs)).
  cbn iota beta. cbn [negb]. f_equal. f_equal.
  replace (("/" +++ Js.join "/" segs) +++ "/" +++ "")
    with ("/" +++ Js.join "/" segs +++ "/")
    by (now rewrite append_assoc).
  apply (segments_absolute _ H).
Qed.

Lemma segments_clean (segs : list string) :
  forallb clean segs = true ->
  Path.segments ("/" +++ Js.join "/" segs) = segs.
Proof. intros H. apply (segments_absolute _ H). Qed.

Lemma stripCommon_common (c a b : list string) :
  headsDiffer a b = true ->
  Path.stripCommon (c ++ a) (c ++ b) = (a, b).
Proof.
  intros H. induction c as [|x c IH].
  - destruct a as [|x a]; [now destruct b|].
    destruct b as [|y b]; [reflexivity|].
    cbn in *. apply negb_true_iff in H. now rewrite H.
  - cbn. now rewrite String.eqb_refl.
Qed.

Lemma headsDiffer_eq (a b : list string) :
  headsDiffer a b = true -> a = b -> a = [] /\ b = [].
Proof.
  intros H <-. destruct a as [|x a]; [easy|].
  cbn in H. now rewrite String.eqb_refl in H.
Qed.

(** [relative] between two absolute paths of clean segments: one [..]
    for each segment of [from] below the common ancestor, then the
    segments of [to] below it. *)
Lemma relative_common (cwd : string) (c a b : list string) :
  forallb clean (c ++ a) = true -> forallb clean (c ++ b) = true ->
  headsDiffer a b = true ->
  Path.relative cwd ("/" +++ Js.join "/" (c ++ a))
    ("/" +++ Js.join "/" (c ++ b))
  = Js.join "/" (map (fun _ => "..") a ++ b).
Proof.
  intros Ha Hb Hd. unfold Path.relative.
  destruct (String.eqb ("/" +++ Js.join "/" (c ++ a))
              ("/" +++ Js.join "/" (c ++ b))) eqn:E.
  - apply String.eqb_eq in E. apply (f_equal Path.segments) in E.
    rewrite !segments_clean in E by assumption.
    apply app_inv_head in E.
    destruct (headsDiffer_eq a b Hd E) as [-> ->]. reflexivity.
  - rewrite !resolve_absolute_clean by assumption.
    rewrite E, !segments_clean by assumption.
    now rewrite stripCommon_common.
Qed.


(** The path of a file entry made of clean segments is its own path
    relative to the output root. *)
Lemma relativeToOutputRoot_clean (env : Env) (wxt : Wxt)
      (dsegs psegs : list string) :
  wxtDir (config wxt) = "/" +++ Js.join "/" dsegs ->
  forallb clean dsegs = true -> forallb clean psegs = true ->
  psegs <> [] ->
  relativeToOutputRoot env wxt (Js.join "/" psegs) = Js.join "/" psegs.
Proof.
  intros E Hd Hp Hne. unfold relativeToOutputRoot, relative, resolve.
  rewrite E, resolve_clean by assumption.
  rewrite <- (app_nil_r dsegs) at 1.
  rewrite relative_common; [reflexivity | | | reflexivity].
  - now rewrite app_nil_r.
  - now rewrite forallb_app, Hd, Hp.
Qed.

(** The references to the three declaration files of the generators,
    when the output root is an absolute path of clean segments. *)
Lemma core_file_references (env : Env) (wxt : Wxt) (dsegs : list string) :
  wxtDir (config wxt) = "/" +++ Js.join "/" dsegs ->
  forallb clean dsegs = true ->
  relativeToOutputRoot env wxt "types/paths.d.ts" = "types/paths.d.ts"
  /\ relativeToOutputRoot env wxt "types/i18n.d.ts" = "types/i18n.d.ts"
  /\ relativeToOutputRoot env wxt "types/globals.d.ts"
     = "types/globals.d.ts"
  /\ relativeToOutputRoot env wxt "tsconfig.json" = "tsconfig.json"
  /\ relativeToOutputRoot env wxt "wxt.d.ts" = "wxt.d.ts".
Proof.
  intros E H.
  repeat apply conj.
  - now apply (relativeToOutputRoot_clean env wxt dsegs
                 ["types"; "paths.d.ts"]).
  - now apply (relativeToOutputRoot_clean env wxt dsegs
                 ["types"; "i18n.d.ts"]).
  - now apply (relativeToOutputRoot_clean env wxt dsegs
                 ["types"; "globals.d.ts"]).
  - now apply (relativeToOutputRoot_clean env wxt dsegs ["tsconfig.json"]).
  - now apply (relativeToOutputRoot_clean env wxt dsegs ["wxt.d.ts"]).
Qed.

(** The target of an alias in the project configuration, when the output
    root and the target are absolute paths of clean segments that part
    after the common ancestor [c]. *)
Lemma getTsconfigPath_common (env : Env) (wxt : Wxt)
      (c a b : list string) :
  wxtDir (config wxt) = "/" +++ Js.join "/" (c ++ a) ->
  forallb clean (c ++ a) = true -> forallb clean (c ++ b) = true ->
  headsDiffer a b = true ->
  getTsconfigPath env wxt ("/" +++ Js.join "/" (c ++ b)) =
  let res :=
    normalizePath env (Js.join "/" (map (fun _ => "..") a ++ b)) in
  if Js.startsWith res "." || Js.startsWith res "/" then res
  else "./" +++ res.
Proof.
  intros E Ha Hb Hd. unfold getTsconfigPath, relative.
  now rewrite E, relative_common.
Qed.

(** ** The generated files *)

Section Files.

Variable env : Env.
Variable wxt : Wxt.

Lemma pathsEntry_text (paths : list string) :
  text (pathsEntry env paths) =
  pathsBefore
  +++ Js.getSubstitution "{{ union }}" pathsBefore pathsAfter
        (orNever (renderUnions env paths))
  +++ pathsAfter.
Proof. apply replace_cut, cut_pathsTemplate. Qed.

Lemma i18nEntry_text (messages : list Message) :
  text (i18nEntry messages) =
  i18nBefore
  +++ Js.getSubstitution "{{ overrides }}" i18nBefore i18nAfter
        (Js.join Js.nl (overrides messages))
  +++ i18nAfter.
Proof. apply replace_cut, cut_i18nTemplate. Qed.

(** The members of the union are the normalized paths in ascending
    order. *)
Lemma renderUnions_sorted (paths : list string) :
  exists sorted,
    Permutation (map (normalizePath env) paths) sorted
    /\ ascending sorted
    /\ renderUnions env paths = Js.join Js.nl (map unionMember sorted).
Proof.
  exists (Js.sort (map (normalizePath env) paths)).
  split; [apply sort_perm | split; [apply sort_ascending | reflexivity]].
Qed.

Lemma renderUnions_nil : orNever (renderUnions env []) = "    | never".
Proof. reflexivity. Qed.

Lemma renderUnions_cons (p : string) (paths : list string) :
  orNever (renderUnions env (p :: paths)) = renderUnions env (p :: paths).
Proof.
  unfold renderUnions.
  destruct (Js.sort (map (normalizePath env) (p :: paths)))
    as [|x l] eqn:E.
  - apply (proj1 (sort_nil_iff _)) in E. discriminate.
  - destruct l; reflexivity.
Qed.

(** Free of patterns, the union reaches the file as it was rendered. *)
Lemma pathsEntry_patternFree (paths : list string) :
  patternFree (renderUnions env paths) = true ->
  text (pathsEntry env paths) =
  pathsBefore +++ orNever (renderUnions env paths) +++ pathsAfter.
Proof.
  intros H. rewrite pathsEntry_text. f_equal. f_equal.
  apply getSubstitution_patternFree.
  destruct paths; [reflexivity | now rewrite renderUnions_cons].
Qed.

Lemma pathsEntry_never :
  text (pathsEntry env []) = pathsBefore +++ "    | never" +++ pathsAfter.
Proof. now rewrite pathsEntry_patternFree. Qed.

(** C5, amended: the paths, i18n, globals and main declaration files
    begin with the marker comment [// Generated by wxt]; the project
    configuration file [tsconfig.json] begins with an opening brace and
    carries no marker. *)
Theorem declaration_files_begin_with_marker
        (paths : list string) (messages : list Message)
        (references : list WxtDirEntry) :
  beginsWithMarker (pathsEntry env paths) = true
  /\ beginsWithMarker (i18nEntry messages) = true
  /\ beginsWithMarker (getGlobalsDeclarationEntry env wxt) = true
  /\ beginsWithMarker (getMainDeclarationEntry env wxt references) = true
  /\ Js.startsWith (text (getTsConfigEntry env wxt)) "{" = true
  /\ beginsWithMarker (getTsConfigEntry env wxt) = false.
Proof.
  unfold beginsWithMarker.
  repeat apply conj.
  - rewrite pathsEntry_text. reflexivity.
  - rewrite i18nEntry_text. reflexivity.
  - reflexivity.
  - unfold getMainDeclarationEntry, mainLines. cbn [text].
    destruct (flat_map (referenceLines env wxt) references); reflexivity.
  - reflexivity.
  - reflexivity.
Qed.


End Files.

(** C5 as the specification states it fails on the project configuration
    file: its text does not begin with the marker. *)
Lemma tsconfig_begins_without_marker :
  beginsWithMarker (getTsConfigEntry sampleEnv sampleWxt) = false.
Proof. reflexivity. Qed.

(** The catalog of the specification, [greet] and [farewell]: three
    overloads, the last one on the union of the two keys. *)
Example greetings_overloads :
  overrides (parseI18nMessages greetings) =
  [ "    /**" +++ Js.nl +++ "     * " +++ quoted "Hello" +++ Js.nl
    +++ "     */" +++ Js.nl +++ "    " +++ overloadOn (quoted "greet");
    "    /**" +++ Js.nl +++ "     * " +++ quoted "Bye" +++ Js.nl
    +++ "     */" +++ Js.nl +++ "    " +++ overloadOn (quoted "farewell");
    "    "
    +++ overloadOn (quoted "greet" +++ " | " +++ quoted "farewell") ]
  /\ text (i18nEntry (parseI18nMessages greetings)) =
     i18nBefore
     +++ Js.join Js.nl (overrides (parseI18nMessages greetings))
     +++ i18nAfter.
Proof. split; vm_compute; reflexivity. Qed.

(** C2 at a path that holds [$$]: the union is rendered with the member
    of the path, but [String.prototype.replace] reads [$$] in its
    replacement as one dollar sign, and the file declares another path. *)
Theorem paths_union_dollar_pattern :
  exists e,
    getPathsDeclarationEntry dollarEnv sampleWxt [] emptyDisk
    = (emptyDisk, Ok e)
    /\ renderUnions dollarEnv (bundlePaths dollarEnv sampleWxt [])
       = unionMember "a$$b.png"
    /\ text e = pathsBefore +++ unionMember "a$b.png" +++ pathsAfter
    /\ text e <> pathsBefore +++ unionMember "a$$b.png" +++ pathsAfter.
Proof.
  eexists. split; [reflexivity|].
  split; [reflexivity|].
  split; [vm_compute; reflexivity|].
  vm_compute. discriminate.
Qed.

(** ** The main declaration file and the project configuration *)

Lemma append_inj_l (a b c : string) : a +++ b = a +++ c -> b = c.
Proof.
  induction a as [|x a IH]; [easy|].
  cbn [String.append]. intros [= H]. now apply IH.
Qed.

Lemma length_append (a b : string) :
  String.length (a +++ b) = String.length a + String.length b.
Proof. induction a as [|x a IH]; cbn; [reflexivity | now rewrite IH]. Qed.

Lemma append_inj_r (a b c : string) : a +++ c = b +++ c -> a = b.
Proof.
  revert b. induction a as [|x a IH]; intros [|y b] H.
  - reflexivity.
  - apply (f_equal String.length) in H.
    cbn [String.append String.length] in H. rewrite length_append in H. lia.
  - apply (f_equal String.length) in H.
    cbn [String.append String.length] in H. rewrite length_append in H. lia.
  - cbn [String.append] in H. injection H as -> H. f_equal. now apply IH.
Qed.

(** A reference directive names one package or file. *)
Lemma packageReference_inj (m m' : string) :
  packageReference m = packageReference m' -> m = m'.
Proof.
  unfold packageReference, quoted. intros H.
  apply append_inj_l, append_inj_r, append_inj_l in H.
  now apply append_inj_r in H.
Qed.

Section Composer.

Variable env : Env.
Variable wxt : Wxt.

Lemma referenceLines_directive (e : WxtDirEntry) :
  referenceLines env wxt e =
  if contributes e then [directive env wxt e] else [].
Proof.
  destruct e as [m|f]; [reflexivity|].
  unfold referenceLines, contributes.
  destruct (tsReference f) as [[|]|]; reflexivity.
Qed.

Lemma flat_map_referenceLines (references : list WxtDirEntry) :
  flat_map (referenceLines env wxt) references =
  map (directive env wxt) (filter contributes references).
Proof.
  induction references as [|e l IH]; [reflexivity|].
  cbn [flat_map filter]. rewrite IH, referenceLines_directive.
  now destruct (contributes e).
Qed.

Lemma referenceLines_userModules :
  flat_map (referenceLines env wxt) (userModuleEntries wxt) =
  map packageReference
    (map module_id
       (filter (fun m => String.eqb (module_type m) "node_module")
               (userModules (config wxt)))).
Proof.
  unfold userModuleEntries.
  induction (userModules (config wxt)) as [|m l IH]; [reflexivity|].
  cbn [flat_map filter].
  destruct (String.eqb (module_type m) "node_module");
    cbn [flat_map map app referenceLines]; now rewrite <- IH.
Qed.

Lemma mainLines_app (l l' : list WxtDirEntry) :
  mainLines env wxt (l ++ l') =
  mainLines env wxt l ++ flat_map (referenceLines env wxt) l'.
Proof. unfold mainLines. now rewrite flat_map_app. Qed.

Lemma fileReference_package (p : string) :
  fileReference env wxt p
  = packageReference
      ("./" +++ normalizePath env (relativeToOutputRoot env wxt p)).
Proof. reflexivity. Qed.

Lemma directive_not_marker (e : WxtDirEntry) : directive env wxt e <> marker.
Proof. destruct e; discriminate. Qed.

(** The lines of the main declaration file are the marker and the
    directives of the contributing entries. *)
Lemma mainLines_In (references : list WxtDirEntry) (line : string) :
  In line (mainLines env wxt references) <->
  line = marker
  \/ exists e, In e references /\ contributes e = true
               /\ directive env wxt e = line.
Proof.
  unfold mainLines. rewrite flat_map_referenceLines. cbn [In].
  rewrite in_map_iff. split.
  - intros [<- | (e & <- & He)]; [now left|].
    apply filter_In in He as [Hin Hc]. right. now exists e.
  - intros [-> | (e & Hin & Hc & <-)]; [now left|].
    right. exists e. split; [reflexivity|]. now apply filter_In.
Qed.

Lemma directive_In (references : list WxtDirEntry) (p : string) :
  In (fileReference env wxt p) (mainLines env wxt references) <->
  exists e, In e references /\ contributes e = true
            /\ directive env wxt e = fileReference env wxt p.
Proof.
  rewrite mainLines_In. split; [|now right].
  intros [H | H]; [|exact H].
  now elim (directive_not_marker (FileEntry {| path := p; text := "";
                                               tsReference := None |})).
Qed.

(** C1, amended: the main declaration entry holds, after its marker, one
    reference directive for each contributing entry of the collection it
    is composed from, in the order of the collection: a package reference
    by name for a module entry, a file reference by the path relative to
    the output root for a file entry with the flag, nothing for a file
    entry without it.  The entry itself carries no flag: it contributes
    no directive, and composing over the collection with the entry
    appended gives the same lines, none of them for the entry.  Under an
    output root that is an absolute path of clean segments, the path
    relative to the output root of an entry whose path is made of clean
    segments is that path.  The file holds a reference to [wxt.d.ts]
    exactly when a contributing entry of the collection has that
    reference for its directive. *)
Theorem main_declaration_references (references : list WxtDirEntry) :
  let main := getMainDeclarationEntry env wxt references in
  mainLines env wxt references =
    marker :: map (directive env wxt) (filter contributes references)
  /\ text main =
     Js.join Js.nl
       (marker :: map (directive env wxt) (filter contributes references))
     +++ Js.nl
  /\ (forall m, directive env wxt (ModuleEntry m) = packageReference m)
  /\ (forall f, directive env wxt (FileEntry f) =
                fileReference env wxt (path f))
  /\ path main = "wxt.d.ts"
  /\ contributes (FileEntry main) = false
  /\ mainLines env wxt (references ++ [FileEntry main]) =
     mainLines env wxt references
  /\ (forall dsegs psegs,
        wxtDir (config wxt) = "/" +++ Js.join "/" dsegs ->
        forallb clean dsegs = true -> forallb clean psegs = true ->
        psegs <> [] ->
        relativeToOutputRoot env wxt (Js.join "/" psegs)
        = Js.join "/" psegs)
  /\ (In (fileReference env wxt (path main)) (mainLines env wxt references)
      <-> exists e,
            In e references /\ contributes e = true
            /\ directive env wxt e = fileReference env wxt (path main)).
Proof.
  intros main.
  assert (E : mainLines env wxt references =
              marker
              :: map (directive env wxt) (filter contributes references)).
  { unfold mainLines. now rewrite flat_map_referenceLines. }
  repeat apply conj; try reflexivity.
  - exact E.
  - unfold main, getMainDeclarationEntry. cbn [text]. now rewrite E.
  - rewrite mainLines_app. cbn [flat_map].
    rewrite referenceLines_directive. cbn. now rewrite !app_nil_r.
  - apply relativeToOutputRoot_clean.
  - apply (proj1 (directive_In references (path main))).
  - apply (proj2 (directive_In references (path main))).
Qed.



End Composer.


(** ** The pass *)

Section Pass.

Variable env : Env.
Variable wxt : Wxt.

Lemma loadMessages_run (k : Disk) :
  loadMessages env wxt k =
  (k, match files k (defaultLocalePath env wxt) with
      | Some raw =>
          match JSON_parse env raw with
          | Some content => Ok (parseI18nMessages content)
          | None => Throw SyntaxError
          end
      | None =>
          if dirs k (defaultLocalePath env wxt)
          then Throw (Thrown "readFile")
          else Ok (parseI18nMessages [])
      end).
Proof.
  unfold loadMessages, bind, exists_, readFile, ret, throw.
  destruct (files k (defaultLocalePath env wxt)) as [raw|] eqn:F.
  - rewrite F. now destruct (JSON_parse env raw).
  - destruct (dirs k (defaultLocalePath env wxt)); [now rewrite F|].
    reflexivity.
Qed.

Lemma coreEntries_pushes (pathsE i18nE : WxtDirFileEntry) :
  ((((([ModuleEntry "wxt/vite-builder-env"] ++ userModuleEntries wxt)
      ++ [FileEntry pathsE]) ++ [FileEntry i18nE])
    ++ [FileEntry (getGlobalsDeclarationEntry env wxt)])
   ++ chromeEntries wxt) ++ [FileEntry (getTsConfigEntry env wxt)]
  = coreEntries env wxt pathsE i18nE.
Proof. unfold coreEntries. now rewrite <- !app_assoc. Qed.

(** The generators and the hooks leave the disk as it is; the entries
    are the ones the [prepare:types] hook leaves, then the main
    declaration entry composed from them. *)
Lemma collectEntries_run (entrypoints : list Entrypoint) (k : Disk) :
  collectEntries env wxt entrypoints k =
  (k, match prepare_publicPaths (hooks wxt)
              (bundlePaths env wxt entrypoints) with
      | Throw e => Throw e
      | Ok paths =>
          match snd (loadMessages env wxt k) with
          | Throw e => Throw e
          | Ok messages =>
              match prepare_types (hooks wxt)
                      (coreEntries env wxt (pathsEntry env paths)
                         (i18nEntry messages)) with
              | Throw e => Throw e
              | Ok entries =>
                  Ok (entries
                      ++ [FileEntry
                            (getMainDeclarationEntry env wxt entries)])
              end
          end
      end).
Proof.
  unfold collectEntries, getPathsDeclarationEntry,
    getI18nDeclarationEntry, callHook, bind, lift, ret.
  destruct (prepare_publicPaths (hooks wxt)
              (bundlePaths env wxt entrypoints)) as [paths|e];
    [|reflexivity].
  rewrite loadMessages_run. cbn [snd].
  destruct (files k (defaultLocalePath env wxt)) as [raw|];
    [destruct (JSON_parse env raw)
    |destruct (dirs k (defaultLocalePath env wxt))];
    try reflexivity;
    rewrite coreEntries_pushes;
    now destruct (prepare_types (hooks wxt) _).
Qed.

Lemma collectEntries_disk (entrypoints : list Entrypoint) (k : Disk) :
  fst (collectEntries env wxt entrypoints k) = k.
Proof. now rewrite collectEntries_run. Qed.

(** Whatever the hook does, the main declaration entry comes last. *)
Lemma main_entry_last (entrypoints : list Entrypoint) (k : Disk)
      (final : list WxtDirEntry) :
  snd (collectEntries env wxt entrypoints k) = Ok final ->
  exists entries,
    final = entries ++ [FileEntry (getMainDeclarationEntry env wxt entries)].
Proof.
  rewrite collectEntries_run. cbn [snd].
  destruct (prepare_publicPaths _ _); [|discriminate].
  destruct (snd (loadMessages env wxt k)); [|discriminate].
  destruct (prepare_types _ _) as [entries|]; [|discriminate].
  intros [= <-]. now exists entries.
Qed.

(** *** Writing *)

Lemma writeEntry_ok (f : WxtDirFileEntry) (k : Disk) :
  snd (writeEntry f k) = Ok tt.
Proof.
  unfold writeEntry, bind, ensureDir, writeFileIfDifferent, writeFile.
  cbn [files].
  destruct (files k (path f)) as [old|]; [|reflexivity].
  now destruct (String.eqb old (text f)).
Qed.

Lemma writeEach_ok (l : list WxtDirFileEntry) (k : Disk) :
  snd (writeEach l k) = Ok tt.
Proof.
  revert k. induction l as [|f l IH]; intros k; [reflexivity|].
  cbn [writeEach]. unfold bind.
  pose proof (writeEntry_ok f k) as E.
  destruct (writeEntry f k) as [k' r]. cbn [snd] in E. subst r.
  apply IH.
Qed.

Lemma writeEach_cons (f : WxtDirFileEntry) (l : list WxtDirFileEntry)
      (k : Disk) :
  writeEach (f :: l) k = writeEach l (fst (writeEntry f k)).
Proof.
  cbn [writeEach]. unfold bind.
  pose proof (writeEntry_ok f k) as E.
  destruct (writeEntry f k) as [k' r]. cbn [snd] in E. now subst r.
Qed.

Lemma writeEntry_files (f : WxtDirFileEntry) (k : Disk) (q : string) :
  files (fst (writeEntry f k)) q =
  if String.eqb q (path f) then Some (text f) else files k q.
Proof.
  unfold writeEntry, bind, ensureDir, writeFileIfDifferent, writeFile.
  cbn [files].
  destruct (files k (path f)) as [old|] eqn:F; [|reflexivity].
  destruct (String.eqb old (text f)) eqn:E; [|reflexivity].
  cbn [fst files]. apply String.eqb_eq in E. subst old.
  destruct (String.eqb q (path f)) eqn:Q; [|reflexivity].
  apply String.eqb_eq in Q. now subst q.
Qed.

Lemma writeEach_files_other (l : list WxtDirFileEntry) (k : Disk)
      (q : string) :
  ~ In q (map (@path) l) ->
  files (fst (writeEach l k)) q = files k q.
Proof.
  revert k. induction l as [|f l IH]; intros k Hq; [reflexivity|].
  rewrite writeEach_cons, IH, writeEntry_files.
  - destruct (String.eqb q (path f)) eqn:Q; [|reflexivity].
    apply String.eqb_eq in Q. elim Hq. left. now subst.
  - intros Hin. apply Hq. now right.
Qed.

(** When no two entries share a path, every entry is on the disk after
    the writes. *)
Lemma writeEach_files (l : list WxtDirFileEntry) (k : Disk)
      (f : WxtDirFileEntry) :
  NoDup (map (@path) l) -> In f l ->
  files (fst (writeEach l k)) (path f) = Some (text f).
Proof.
  revert k. induction l as [|g l IH]; intros k Hnd Hin; [easy|].
  cbn [map] in Hnd. inversion Hnd as [|? ? Hg Hnd']; subst.
  rewrite writeEach_cons.
  destruct Hin as [->|Hin]; [|now apply IH].
  rewrite writeEach_files_other by exact Hg.
  rewrite writeEntry_files. now rewrite String.eqb_refl.
Qed.

Lemma writeEach_app (l l' : list WxtDirFileEntry) (k : Disk) :
  writeEach (l ++ l') k = writeEach l' (fst (writeEach l k)).
Proof.
  revert k. induction l as [|f l IH]; intros k; [reflexivity|].
  cbn [app]. now rewrite !writeEach_cons, IH.
Qed.

(** After the writes, a path holds the text of the last entry written
    under it, if there is one. *)
Lemma writeEach_last (l : list WxtDirFileEntry) (k : Disk) (q : string) :
  files (fst (writeEach l k)) q =
  match find (fun f => String.eqb q (path f)) (rev l) with
  | Some f => Some (text f)
  | None => files k q
  end.
Proof.
  induction l as [|f l IH] using rev_ind; [reflexivity|].
  rewrite writeEach_app, rev_app_distr. cbn [rev app find].
  rewrite writeEach_cons. cbn [writeEach ret fst].
  rewrite writeEntry_files.
  destruct (String.eqb q (path f)); [reflexivity | exact IH].
Qed.

Lemma generateWxtDir_run (completionOrder : CompletionOrder)
      (entrypoints : list Entrypoint) (k : Disk) :
  generateWxtDir env wxt completionOrder entrypoints k =
  match snd (collectEntries env wxt entrypoints (ensured wxt k)) with
  | Throw e => (ensured wxt k, Throw e)
  | Ok final =>
      (fst (writeEach
              (completionOrder (absoluteFileEntries env wxt final))
              (ensured wxt k)),
       Ok tt)
  end.
Proof.
  unfold generateWxtDir, bind at 1. unfold ensured. cbn [ensureDir fst].
  unfold bind.
  pose proof (collectEntries_disk entrypoints
                (fst (ensureDir (typesDir (config wxt)) k))) as D.
  cbn [ensureDir fst] in D.
  destruct (collectEntries env wxt entrypoints _) as [k' [final|e]];
    cbn [fst snd] in *; subst k'; [|reflexivity].
  unfold writeAll.
  pose proof (writeEach_ok
                (completionOrder (absoluteFileEntries env wxt final))) as W.
  match goal with
  | |- writeEach ?l ?d = _ => specialize (W d); destruct (writeEach l d)
  end.
  cbn [snd fst] in *. now subst.
Qed.

End Pass.

(** *** Overlapping writes *)

Lemma filter_none {A} (p : A -> bool) (l : list A) :
  (forall x, In x l -> p x = false) -> filter p l = [].
Proof.
  induction l as [|x l IH]; [reflexivity|]. intros H.
  cbn [filter]. rewrite (H x (or_introl eq_refl)).
  apply IH. intros y Hy. apply H. now right.
Qed.

Lemma alone_NoDup (l : list WxtDirFileEntry) (f : WxtDirFileEntry) :
  NoDup (map (@path) l) -> In f l -> alone l f.
Proof.
  unfold alone. induction l as [|g l IH]; [easy|].
  cbn [map]. intros Hnd Hin. inversion Hnd as [|? ? Hg Hnd']; subst.
  cbn [filter]. destruct Hin as [-> | Hin].
  - rewrite String.eqb_refl. f_equal.
    apply filter_none. intros h Hh.
    apply String.eqb_neq. intros E. apply Hg. rewrite <- E.
    now apply in_map.
  - destruct (String.eqb (path g) (path f)) eqn:E; [|now apply IH].
    apply String.eqb_eq in E. elim Hg. rewrite E. now apply in_map.
Qed.

Lemma alone_In (l : list WxtDirFileEntry) (f g : WxtDirFileEntry) :
  alone l f -> In g l -> path g = path f -> g = f.
Proof.
  unfold alone. intros A Hin E.
  assert (H : In g (filter (fun h => String.eqb (path h) (path f)) l)).
  { apply filter_In. split; [exact Hin|]. now apply String.eqb_eq. }
  rewrite A in H. destruct H as [H | []]. now symmetry.
Qed.

(** A runtime that completes the writes one after the other, in any
    arrangement, is one of the runtimes. *)
Lemma permutation_overlapping (c : CompletionOrder) :
  (forall l, Permutation l (c l)) -> overlapping c.
Proof.
  intros P l. repeat apply conj.
  - intros g Hg. apply in_map.
    eapply Permutation_in; [apply Permutation_sym, P | exact Hg].
  - intros f Hf. apply in_map.
    eapply Permutation_in; [apply P | exact Hf].
  - intros f g Hf A Hg E.
    f_equal. apply (alone_In l f g A); [|exact E].
    eapply Permutation_in; [apply Permutation_sym, P | exact Hg].
Qed.

(** After the overlapping writes, a path that one entry alone claims
    holds the text of that entry. *)
Lemma writeEach_overlapping (c : CompletionOrder)
      (l : list WxtDirFileEntry) (k : Disk) (f : WxtDirFileEntry) :
  overlapping c -> In f l -> alone l f ->
  files (fst (writeEach (c l) k)) (path f) = Some (text f).
Proof.
  intros O Hf A. destruct (O l) as (_ & O2 & O3).
  rewrite writeEach_last.
  destruct (find (fun g => String.eqb (path f) (path g)) (rev (c l)))
    as [g|] eqn:F.
  - apply find_some in F as [Hin Hp]. apply String.eqb_eq in Hp.
    apply in_rev in Hin. f_equal. now apply (O3 f g).
  - exfalso. specialize (O2 f Hf).
    apply in_map_iff in O2 as (g & E & Hg).
    apply in_rev in Hg.
    pose proof (find_none _ _ F g Hg) as C. cbn beta in C.
    rewrite E, String.eqb_refl in C. discriminate.
Qed.

Section Hooked.

Variable env : Env.
Variable wxt : Wxt.

Lemma userModuleEntries_filter :
  userModuleEntries wxt =
  map (fun m => ModuleEntry (module_id m))
    (filter (fun m => String.eqb (module_type m) "node_module")
            (userModules (config wxt))).
Proof.
  unfold userModuleEntries.
  induction (userModules (config wxt)) as [|m l IH]; [reflexivity|].
  cbn [flat_map filter].
  destruct (String.eqb (module_type m) "node_module");
    cbn [map app]; now rewrite IH.
Qed.

(** What the pass collects: the entries the [prepare:types] hook leaves
    of the core entries, then the main declaration entry. *)
Lemma collectEntries_hooked (entrypoints : list Entrypoint) (k : Disk)
      (final : list WxtDirEntry) :
  snd (collectEntries env wxt entrypoints k) = Ok final ->
  exists paths messages hooked,
    prepare_publicPaths (hooks wxt) (bundlePaths env wxt entrypoints)
    = Ok paths
    /\ snd (loadMessages env wxt k) = Ok messages
    /\ prepare_types (hooks wxt)
         (coreEntries env wxt (pathsEntry env paths) (i18nEntry messages))
       = Ok hooked
    /\ final = hooked ++ [FileEntry (getMainDeclarationEntry env wxt hooked)].
Proof.
  intros H. rewrite collectEntries_run in H. cbn [snd] in H.
  destruct (prepare_publicPaths _ _) as [paths|]; [|discriminate].
  destruct (snd (loadMessages env wxt k)) as [messages|]; [|discriminate].
  destruct (prepare_types _ _) as [hooked|] eqn:T; [|discriminate].
  injection H as <-. now exists paths, messages, hooked.
Qed.

End Hooked.

(** ** What the specification states about the pass *)

Section PassProperties.

Variable env : Env.
Variable wxt : Wxt.

(** C4: when the default locale file exists and [JSON.parse] throws on
    it, the pass throws and no file is written: the files of the disk and
    the record of the writes are as before the pass.  The error is the
    one of [JSON.parse], unless the hook of the public paths, which runs
    before, has thrown.  On every disk, the writes start only once the
    generators, the hooks and the composition of the main declaration
    have returned; when one of them throws, the pass ends with that
    error on the disk as the first [ensureDir] left it. *)
Theorem malformed_locale_aborts_before_writing
        (completionOrder : CompletionOrder)
        (entrypoints : list Entrypoint) (k : Disk) (raw : string) :
  files k (defaultLocalePath env wxt) = Some raw ->
  JSON_parse env raw = None ->
  generateWxtDir env wxt completionOrder entrypoints k =
    (ensured wxt k,
     Throw match prepare_publicPaths (hooks wxt)
                   (bundlePaths env wxt entrypoints) with
           | Ok _ => SyntaxError
           | Throw e => e
           end)
  /\ files (ensured wxt k) = files k
  /\ written (ensured wxt k) = written k
  /\ (forall d,
        generateWxtDir env wxt completionOrder entrypoints d =
        match snd (collectEntries env wxt entrypoints (ensured wxt d)) with
        | Throw e => (ensured wxt d, Throw e)
        | Ok final =>
            (fst (writeEach
                    (completionOrder (absoluteFileEntries env wxt final))
                    (ensured wxt d)),
             Ok tt)
        end).
Proof.
  intros Hfile Hparse.
  repeat apply conj; try reflexivity.
  - rewrite generateWxtDir_run, collectEntries_run, loadMessages_run.
    cbn [snd].
    replace (files (ensured wxt k) (defaultLocalePath env wxt))
      with (files k (defaultLocalePath env wxt)) by reflexivity.
    rewrite Hfile, Hparse.
    now destruct (prepare_publicPaths _ _).
  - intros d. apply generateWxtDir_run.
Qed.

(** C6, amended: the collection handed to the [prepare:types] hook is, in
    this order: the module entry [wxt/vite-builder-env]; one module entry
    for each user module installed from NPM, in the order of the
    configuration; the paths, i18n and globals file entries; the module
    entry [@types/chrome] when the extension API is [chrome]; the project
    configuration file entry.  The collection of the pass is what the hook
    leaves of it, then the main declaration entry, which is last whatever
    the hook does; when the hook leaves the core entries and appends its
    own, these stand between the project configuration entry and the main
    declaration entry. *)
Theorem entries_order (entrypoints : list Entrypoint) (k : Disk)
        (final : list WxtDirEntry) :
  snd (collectEntries env wxt entrypoints k) = Ok final ->
  exists pathsE i18nE hooked,
    let core :=
      [ModuleEntry "wxt/vite-builder-env"]
      ++ map (fun m => ModuleEntry (module_id m))
           (filter (fun m => String.eqb (module_type m) "node_module")
                   (userModules (config wxt)))
      ++ [ FileEntry pathsE; FileEntry i18nE;
           FileEntry (getGlobalsDeclarationEntry env wxt) ]
      ++ (if String.eqb (extensionApi (config wxt)) "chrome"
          then [ModuleEntry "@types/chrome"] else [])
      ++ [FileEntry (getTsConfigEntry env wxt)] in
    let main := getMainDeclarationEntry env wxt hooked in
    path pathsE = "types/paths.d.ts"
    /\ path i18nE = "types/i18n.d.ts"
    /\ path (getGlobalsDeclarationEntry env wxt) = "types/globals.d.ts"
    /\ path (getTsConfigEntry env wxt) = "tsconfig.json"
    /\ path main = "wxt.d.ts"
    /\ prepare_types (hooks wxt) core = Ok hooked
    /\ final = hooked ++ [FileEntry main]
    /\ (forall extra,
          hooked = core ++ extra ->
          final =
          [ModuleEntry "wxt/vite-builder-env"]
          ++ map (fun m => ModuleEntry (module_id m))
               (filter (fun m => String.eqb (module_type m) "node_module")
                       (userModules (config wxt)))
          ++ [ FileEntry pathsE; FileEntry i18nE;
               FileEntry (getGlobalsDeclarationEntry env wxt) ]
          ++ (if String.eqb (extensionApi (config wxt)) "chrome"
              then [ModuleEntry "@types/chrome"] else [])
          ++ [FileEntry (getTsConfigEntry env wxt)]
          ++ extra
          ++ [FileEntry main]).
Proof.
  intros H.
  destruct (collectEntries_hooked env wxt entrypoints k final H)
    as (paths & messages & hooked & _ & _ & T & E).
  exists (pathsEntry env paths), (i18nEntry messages), hooked.
  cbn zeta.
  assert (C : coreEntries env wxt (pathsEntry env paths)
                (i18nEntry messages)
              = [ModuleEntry "wxt/vite-builder-env"]
                ++ map (fun m => ModuleEntry (module_id m))
                     (filter (fun m =>
                                String.eqb (module_type m) "node_module")
                             (userModules (config wxt)))
                ++ [ FileEntry (pathsEntry env paths);
                     FileEntry (i18nEntry messages);
                     FileEntry (getGlobalsDeclarationEntry env wxt) ]
                ++ (if String.eqb (extensionApi (config wxt)) "chrome"
                    then [ModuleEntry "@types/chrome"] else [])
                ++ [FileEntry (getTsConfigEntry env wxt)]).
  { unfold coreEntries, chromeEntries.
    now rewrite userModuleEntries_filter. }
  rewrite <- C.
  repeat apply conj; try reflexivity.
  - exact T.
  - exact E.
  - intros extra Hx. rewrite E, Hx, C. now rewrite <- !app_assoc.
Qed.


Lemma loadMessages_agree (k1 k2 : Disk) :
  files k1 (defaultLocalePath env wxt)
  = files k2 (defaultLocalePath env wxt) ->
  dirs k1 (defaultLocalePath env wxt)
  = dirs k2 (defaultLocalePath env wxt) ->
  snd (loadMessages env wxt (ensured wxt k1))
  = snd (loadMessages env wxt (ensured wxt k2)).
Proof.
  intros Hf Hd. rewrite !loadMessages_run. cbn [snd].
  unfold ensured. cbn [ensureDir fst files dirs].
  now rewrite Hf, Hd.
Qed.

(** C9, amended: two passes on the same entrypoints, configuration,
    helpers and hooks, started on two disks that agree on the default
    locale file, end alike, with the same error or with the same entries,
    path by path and text by text, whatever else the disks hold and
    whatever the runtime makes of the overlapping writes.  After either
    pass, when it returns, a path that one entry alone claims holds the
    text of that entry, so that, when no two entries share a path, every
    generated path holds the same text after both passes; nothing is said
    of a path that two entries claim. *)
Theorem generation_is_deterministic
        (order1 order2 : CompletionOrder)
        (entrypoints : list Entrypoint) (k1 k2 : Disk) :
  files k1 (defaultLocalePath env wxt)
  = files k2 (defaultLocalePath env wxt) ->
  dirs k1 (defaultLocalePath env wxt)
  = dirs k2 (defaultLocalePath env wxt) ->
  snd (collectEntries env wxt entrypoints (ensured wxt k1))
  = snd (collectEntries env wxt entrypoints (ensured wxt k2))
  /\ snd (generateWxtDir env wxt order1 entrypoints k1)
     = snd (generateWxtDir env wxt order2 entrypoints k2)
  /\ (forall final f,
        snd (collectEntries env wxt entrypoints (ensured wxt k1))
        = Ok final ->
        overlapping order1 -> overlapping order2 ->
        snd (generateWxtDir env wxt order1 entrypoints k1) = Ok tt ->
        snd (generateWxtDir env wxt order2 entrypoints k2) = Ok tt ->
        In f (absoluteFileEntries env wxt final) ->
        alone (absoluteFileEntries env wxt final) f ->
        files (fst (generateWxtDir env wxt order1 entrypoints k1)) (path f)
        = Some (text f)
        /\ files (fst (generateWxtDir env wxt order2 entrypoints k2))
             (path f)
           = Some (text f))
  /\ (forall final f,
        snd (collectEntries env wxt entrypoints (ensured wxt k1))
        = Ok final ->
        overlapping order1 -> overlapping order2 ->
        snd (generateWxtDir env wxt order1 entrypoints k1) = Ok tt ->
        snd (generateWxtDir env wxt order2 entrypoints k2) = Ok tt ->
        NoDup (map (@path) (absoluteFileEntries env wxt final)) ->
        In f (absoluteFileEntries env wxt final) ->
        files (fst (generateWxtDir env wxt order1 entrypoints k1)) (path f)
        = files (fst (generateWxtDir env wxt order2 entrypoints k2))
            (path f)).
Proof.
  intros Hf Hd.
  assert (E : snd (collectEntries env wxt entrypoints (ensured wxt k1))
              = snd (collectEntries env wxt entrypoints (ensured wxt k2))).
  { rewrite !collectEntries_run. cbn [snd].
    now rewrite (loadMessages_agree k1 k2 Hf Hd). }
  assert (W : forall final f,
            snd (collectEntries env wxt entrypoints (ensured wxt k1))
            = Ok final ->
            overlapping order1 -> overlapping order2 ->
            In f (absoluteFileEntries env wxt final) ->
            alone (absoluteFileEntries env wxt final) f ->
            files (fst (generateWxtDir env wxt order1 entrypoints k1))
              (path f)
            = Some (text f)
            /\ files (fst (generateWxtDir env wxt order2 entrypoints k2))
                 (path f)
               = Some (text f)).
  { intros final f Hfinal O1 O2 Hin A.
    rewrite !generateWxtDir_run, <- E, Hfinal. cbn [fst].
    split; now apply writeEach_overlapping. }
  split; [exact E|]. split; [|split].
  - rewrite !generateWxtDir_run, <- E.
    now destruct (snd (collectEntries env wxt entrypoints
                         (ensured wxt k1))).
  - intros final f Hfinal O1 O2 _ _ Hin A. now apply (W final).
  - intros final f Hfinal O1 O2 _ _ Hnd Hin.
    destruct (W final f Hfinal O1 O2 Hin (alone_NoDup _ f Hnd Hin))
      as [-> ->].
    reflexivity.
Qed.

(** C10, amended: the project configuration entry is produced without
    the [tsReference] flag and contributes no directive; it is among the
    core entries, and the lines the core entries give to the main
    declaration file are the marker, the directives of the module entries
    and of the paths, i18n and globals files.  The main declaration file
    is composed from what the [prepare:types] hook leaves of the core
    entries, and it holds a reference to [tsconfig.json] exactly when a
    contributing entry among these has that reference for its directive.
    Under an output root that is an absolute path of clean segments, when
    [normalizePath] tells [tsconfig.json] from the three declaration
    files and no user module installed from NPM goes by its reference, a
    hook that leaves the core entries and appends its own puts the
    reference there exactly when one of its own contributing entries has
    it. *)
Theorem tsconfig_entry_is_not_referenced
        (entrypoints : list Entrypoint) (k : Disk)
        (final : list WxtDirEntry) :
  snd (collectEntries env wxt entrypoints k) = Ok final ->
  let reference := fileReference env wxt "tsconfig.json" in
  tsReference (getTsConfigEntry env wxt) = None
  /\ contributes (FileEntry (getTsConfigEntry env wxt)) = false
  /\ referenceLines env wxt (FileEntry (getTsConfigEntry env wxt)) = []
  /\ exists pathsE i18nE hooked,
       let core := coreEntries env wxt pathsE i18nE in
       prepare_types (hooks wxt) core = Ok hooked
       /\ final
          = hooked ++ [FileEntry (getMainDeclarationEntry env wxt hooked)]
       /\ In (FileEntry (getTsConfigEntry env wxt)) core
       /\ mainLines env wxt core =
          marker
          :: packageReference "wxt/vite-builder-env"
          :: map packageReference
               (map module_id
                  (filter (fun m =>
                             String.eqb (module_type m) "node_module")
                          (userModules (config wxt))))
             ++ [ fileReference env wxt "types/paths.d.ts";
                  fileReference env wxt "types/i18n.d.ts";
                  fileReference env wxt "types/globals.d.ts" ]
             ++ (if String.eqb (extensionApi (config wxt)) "chrome"
                 then [packageReference "@types/chrome"] else [])
       /\ (In reference (mainLines env wxt hooked)
           <-> exists e,
                 In e hooked /\ contributes e = true
                 /\ directive env wxt e = reference)
       /\ (forall extra,
             hooked = core ++ extra ->
             mainLines env wxt hooked
             = mainLines env wxt core
               ++ flat_map (referenceLines env wxt) extra)
       /\ (forall dsegs extra,
             wxtDir (config wxt) = "/" +++ Js.join "/" dsegs ->
             forallb clean dsegs = true ->
             (forall p,
                In p [ "types/paths.d.ts"; "types/i18n.d.ts";
                       "types/globals.d.ts" ] ->
                normalizePath env p <> normalizePath env "tsconfig.json") ->
             (forall m,
                In m (userModules (config wxt)) ->
                String.eqb (module_type m) "node_module" = true ->
                module_id m <> "./" +++ normalizePath env "tsconfig.json") ->
             hooked = core ++ extra ->
             (In reference (mainLines env wxt hooked)
              <-> exists e,
                    In e extra /\ contributes e = true
                    /\ directive env wxt e = reference)).
Proof.
  intros H reference.
  destruct (collectEntries_hooked env wxt entrypoints k final H)
    as (paths & messages & hooked & _ & _ & T & E).
  repeat apply conj; try reflexivity.
  exists (pathsEntry env paths), (i18nEntry messages), hooked.
  cbn zeta.
  set (core := coreEntries env wxt (pathsEntry env paths)
                 (i18nEntry messages)).
  assert (L : mainLines env wxt core =
              marker
              :: packageReference "wxt/vite-builder-env"
              :: map packageReference
                   (map module_id
                      (filter (fun m =>
                                 String.eqb (module_type m) "node_module")
                              (userModules (config wxt))))
                 ++ [ fileReference env wxt "types/paths.d.ts";
                      fileReference env wxt "types/i18n.d.ts";
                      fileReference env wxt "types/globals.d.ts" ]
                 ++ (if String.eqb (extensionApi (config wxt)) "chrome"
                     then [packageReference "@types/chrome"] else [])).
  { unfold core, mainLines, coreEntries.
    rewrite !flat_map_app, referenceLines_userModules.
    unfold chromeEntries.
    destruct (String.eqb (extensionApi (config wxt)) "chrome");
      cbn [flat_map referenceLines app]; rewrite <- ?app_assoc;
      reflexivity. }
  repeat apply conj.
  - exact T.
  - exact E.
  - unfold core, coreEntries.
    rewrite !in_app_iff. right. right. right. right. now left.
  - exact L.
  - apply (proj1 (directive_In env wxt hooked "tsconfig.json")).
  - apply (proj2 (directive_In env wxt hooked "tsconfig.json")).
  - intros extra ->. apply mainLines_app.
  - intros dsegs extra Hw Hc Hn Hm Hx.
    destruct (core_file_references env wxt dsegs Hw Hc)
      as (Rp & Ri & Rg & Rt & _).
    assert (F : forall p,
              fileReference env wxt p = reference ->
              normalizePath env (relativeToOutputRoot env wxt p)
              = normalizePath env "tsconfig.json").
    { intros p Hp. unfold reference in Hp.
      rewrite !fileReference_package in Hp.
      apply packageReference_inj, append_inj_l in Hp.
      now rewrite Rt in Hp. }
    assert (P : forall m,
              packageReference m = reference ->
              m = "./" +++ normalizePath env "tsconfig.json").
    { intros m Hp. unfold reference in Hp.
      rewrite fileReference_package in Hp.
      apply packageReference_inj in Hp. now rewrite Rt in Hp. }
    assert (N : ~ In reference (mainLines env wxt core)).
    { rewrite L. cbn [In]. rewrite !in_app_iff. cbn [In].
      intros [C | [C | [C | [[C | [C | [C | []]]] | C]]]].
      - discriminate.
      - apply P in C. discriminate.
      - rewrite map_map in C. apply in_map_iff in C as (m & C & Hin).
        apply filter_In in Hin as [Hin Ht].
        apply P in C. now elim (Hm m Hin Ht).
      - apply F in C. rewrite Rp in C.
        elim (Hn "types/paths.d.ts"); [now left | exact C].
      - apply F in C. rewrite Ri in C.
        elim (Hn "types/i18n.d.ts"); [right; now left | exact C].
      - apply F in C. rewrite Rg in C.
        elim (Hn "types/globals.d.ts"); [right; right; now left | exact C].
      - destruct (String.eqb (extensionApi (config wxt)) "chrome");
          [|destruct C].
        destruct C as [C | []]. apply P in C. discriminate. }
    rewrite Hx, mainLines_app, in_app_iff, flat_map_referenceLines.
    rewrite in_map_iff. split.
    + intros [Hin | (e & He & Hf)]; [now elim N|].
      apply filter_In in Hf as [Hf Hcon]. now exists e.
    + intros (e & Hin & Hcon & He). right.
      exists e. split; [exact He|]. now apply filter_In.
Qed.

End PassProperties.

(** ** The sample project *)

Lemma map_forallb_true {A} (p : A -> bool) (l : list A) :
  forallb p l = true -> map p l = repeat true (List.length l).
Proof.
  induction l as [|x l IH]; [reflexivity|].
  cbn. intros H. apply andb_true_iff in H as [Hx Hl].
  now rewrite Hx, IH.
Qed.

Lemma map_forallb_false {A} (p : A -> bool) (l : list A) :
  forallb (fun x => negb (p x)) l = true ->
  map p l = repeat false (List.length l).
Proof.
  induction l as [|x l IH]; [reflexivity|].
  cbn. intros H. apply andb_true_iff in H as [Hx Hl].
  apply negb_true_iff in Hx. now rewrite Hx, IH.
Qed.

(** C6 as the specification states it fails when the extension API is
    [chrome]: the pass of the sample project, whose hook contributes
    nothing, puts the module entry [@types/chrome] after the paths, i18n
    and globals file entries, so that its entries are not hard-coded
    entries, then generated entries, then the main declaration entry. *)
Lemma chrome_entry_breaks_stated_order :
  snd (collectEntries sampleEnv sampleWxt sampleEntrypoints emptyDisk)
  = Ok sampleFinal
  /\ nth_error sampleFinal 2
     = Some (FileEntry (pathsEntry sampleEnv ["b.js"; "a.html"; "c.png"]))
  /\ nth_error sampleFinal 5 = Some (ModuleEntry "@types/chrome")
  /\ ~ statedOrder sampleFinal [].
Proof.
  repeat apply conj; try (vm_compute; reflexivity).
  intros (hard & generated & main & Hh & Hg & E).
  apply (f_equal (map isModuleEntry)) in E.
  rewrite !map_app, (map_forallb_true _ _ Hh),
    (map_forallb_false _ _ Hg) in E.
  cbn in E.
  destruct (List.length hard) as [|[|[|h]]];
    destruct (List.length generated) as [|[|[|[|[|[|g]]]]]];
    cbn in E; discriminate.
Qed.

Lemma entries_order_witness :
  exists pathsE i18nE main,
    path pathsE = "types/paths.d.ts"
    /\ path i18nE = "types/i18n.d.ts"
    /\ path main = "wxt.d.ts"
    /\ sampleFinal =
       [ ModuleEntry "wxt/vite-builder-env";
         ModuleEntry "@wxt-dev/i18n";
         FileEntry pathsE; FileEntry i18nE;
         FileEntry (getGlobalsDeclarationEntry sampleEnv sampleWxt);
         ModuleEntry "@types/chrome";
         FileEntry (getTsConfigEntry sampleEnv sampleWxt);
         FileEntry main ].
Proof.
  destruct (entries_order sampleEnv sampleWxt sampleEntrypoints emptyDisk
              sampleFinal)
    as (pathsE & i18nE & hooked & A & B & _ & _ & C & T & _ & F).
  - vm_compute. reflexivity.
  - exists pathsE, i18nE, (getMainDeclarationEntry sampleEnv sampleWxt hooked).
    repeat apply conj; [exact A | exact B | exact C |].
    apply (F []). injection T as <-. reflexivity.
Defined.

Lemma tsconfig_entry_is_not_referenced_witness :
  contributes (FileEntry (getTsConfigEntry sampleEnv sampleWxt)) = false
  /\ exists hooked,
       sampleFinal
       = hooked
         ++ [FileEntry (getMainDeclarationEntry sampleEnv sampleWxt hooked)]
       /\ ~ In (fileReference sampleEnv sampleWxt "tsconfig.json")
              (mainLines sampleEnv sampleWxt hooked).
Proof.
  destruct (tsconfig_entry_is_not_referenced sampleEnv sampleWxt
              sampleEntrypoints emptyDisk sampleFinal)
    as (_ & A & _ & pathsE & i18nE & hooked & T & E & _ & _ & _ & _ & N).
  - vm_compute. reflexivity.
  - split; [exact A|]. exists hooked. split; [exact E|].
    intros Hin.
    apply (N ["project"; ".generated"] []) in Hin.
    + destruct Hin as (e & [] & _).
    + reflexivity.
    + reflexivity.
    + intros p [<- | [<- | [<- | []]]]; discriminate.
    + intros m [<- | [<- | []]] _; discriminate.
    + injection T as <-. reflexivity.
Defined.

(** C1 as the specification states it fails: the module of this project
    contributes a file entry with the flag under the path of the main
    declaration file, and the main declaration file, composed from the
    entries the module leaves, holds a reference to [./wxt.d.ts]. *)
Lemma hook_entry_makes_main_reference_itself :
  snd (collectEntries sampleEnv (flagging "wxt.d.ts") sampleEntrypoints
         emptyDisk)
  = Ok (flaggedFinal "wxt.d.ts")
  /\ exists main,
       nth_error (flaggedFinal "wxt.d.ts") 8 = Some (FileEntry main)
       /\ List.length (flaggedFinal "wxt.d.ts") = 9
       /\ main = getMainDeclarationEntry sampleEnv (flagging "wxt.d.ts")
                   (removelast (flaggedFinal "wxt.d.ts"))
       /\ path main = "wxt.d.ts"
       /\ In (fileReference sampleEnv (flagging "wxt.d.ts") (path main))
             (mainLines sampleEnv (flagging "wxt.d.ts")
                (removelast (flaggedFinal "wxt.d.ts")))
       /\ text main =
          Js.join Js.nl
            [ "// Generated by wxt";
              "/// <reference types=" +++ quoted "wxt/vite-builder-env"
              +++ " />";
              "/// <reference types=" +++ quoted "@wxt-dev/i18n" +++ " />";
              "/// <reference types=" +++ quoted "./types/paths.d.ts"
              +++ " />";
              "/// <reference types=" +++ quoted "./types/i18n.d.ts"
              +++ " />";
              "/// <reference types=" +++ quoted "./types/globals.d.ts"
              +++ " />";
              "/// <reference types=" +++ quoted "@types/chrome" +++ " />";
              "/// <reference types=" +++ quoted "./wxt.d.ts" +++ " />";
              "" ].
Proof.
  split; [vm_compute; reflexivity|].
  eexists. repeat apply conj; try (vm_compute; reflexivity).
  vm_compute. tauto.
Qed.

(** C10 as the specification states it fails: the module of this project
    contributes a file entry with the flag under the path
    [tsconfig.json], and the main declaration file holds a reference to
    [./tsconfig.json]. *)
Lemma hook_entry_brings_tsconfig_reference :
  snd (collectEntries sampleEnv (flagging "tsconfig.json")
         sampleEntrypoints emptyDisk)
  = Ok (flaggedFinal "tsconfig.json")
  /\ exists main,
       nth_error (flaggedFinal "tsconfig.json") 8 = Some (FileEntry main)
       /\ List.length (flaggedFinal "tsconfig.json") = 9
       /\ path main = "wxt.d.ts"
       /\ In (fileReference sampleEnv (flagging "tsconfig.json")
                "tsconfig.json")
             (mainLines sampleEnv (flagging "tsconfig.json")
                (removelast (flaggedFinal "tsconfig.json")))
       /\ text main =
          Js.join Js.nl
            [ "// Generated by wxt";
              "/// <reference types=" +++ quoted "wxt/vite-builder-env"
              +++ " />";
              "/// <reference types=" +++ quoted "@wxt-dev/i18n" +++ " />";
              "/// <reference types=" +++ quoted "./types/paths.d.ts"
              +++ " />";
              "/// <reference types=" +++ quoted "./types/i18n.d.ts"
              +++ " />";
              "/// <reference types=" +++ quoted "./types/globals.d.ts"
              +++ " />";
              "/// <reference types=" +++ quoted "@types/chrome" +++ " />";
              "/// <reference types=" +++ quoted "./tsconfig.json"
              +++ " />";
              "" ].
Proof.
  split; [vm_compute; reflexivity|].
  eexists. repeat apply conj; try (vm_compute; reflexivity).
  vm_compute. tauto.
Qed.

(** The main declaration file of the sample project. *)
Example sample_main_declaration :
  exists main,
    nth_error sampleFinal 7 = Some (FileEntry main)
    /\ List.length sampleFinal = 8
    /\ text main =
       Js.join Js.nl
         [ "// Generated by wxt";
           "/// <reference types=" +++ quoted "wxt/vite-builder-env"
           +++ " />";
           "/// <reference types=" +++ quoted "@wxt-dev/i18n" +++ " />";
           "/// <reference types=" +++ quoted "./types/paths.d.ts"
           +++ " />";
           "/// <reference types=" +++ quoted "./types/i18n.d.ts"
           +++ " />";
           "/// <reference types=" +++ quoted "./types/globals.d.ts"
           +++ " />";
           "/// <reference types=" +++ quoted "@types/chrome" +++ " />";
           "" ].
Proof.
  eexists. repeat apply conj; vm_compute; reflexivity.
Qed.

Lemma malformed_locale_witness :
  generateWxtDir sampleEnv sampleWxt inOrder sampleEntrypoints brokenDisk
  = (ensured sampleWxt brokenDisk, Throw SyntaxError)
  /\ files (ensured sampleWxt brokenDisk) = files brokenDisk
  /\ written (ensured sampleWxt brokenDisk) = [].
Proof.
  destruct (malformed_locale_aborts_before_writing sampleEnv sampleWxt
              inOrder sampleEntrypoints brokenDisk "{")
    as (A & B & C & _).
  - reflexivity.
  - reflexivity.
  - repeat apply conj; [exact A | exact B | exact C].
Defined.



(** C9 as the specification states it fails: the module of this project
    contributes a file entry under the path of the paths declaration
    file.  Two passes on the same input, the writes of the one completing
    in order and the writes of the other in the opposite order, both
    return, and the file holds one text after the one and another text
    after the other. *)
Lemma clashing_writes_depend_on_the_race :
  overlapping inOrder /\ overlapping reversed
  /\ snd (generateWxtDir sampleEnv clashingWxt inOrder sampleEntrypoints
            emptyDisk)
     = Ok tt
  /\ snd (generateWxtDir sampleEnv clashingWxt reversed sampleEntrypoints
            emptyDisk)
     = Ok tt
  /\ files (fst (generateWxtDir sampleEnv clashingWxt inOrder
                   sampleEntrypoints emptyDisk))
       "/project/.generated/types/paths.d.ts"
     <> files (fst (generateWxtDir sampleEnv clashingWxt reversed
                      sampleEntrypoints emptyDisk))
          "/project/.generated/types/paths.d.ts".
Proof.
  repeat apply conj; try (vm_compute; reflexivity).
  - apply permutation_overlapping. intros l. apply Permutation_refl.
  - apply permutation_overlapping. intros l. apply Permutation_rev.
  - vm_compute. discriminate.
Qed.

Lemma generation_is_deterministic_witness :
  files (fst (generateWxtDir sampleEnv sampleWxt inOrder sampleEntrypoints
                emptyDisk))
    "/project/.generated/types/paths.d.ts"
  = Some (text (pathsEntry sampleEnv ["b.js"; "a.html"; "c.png"]))
  /\ files (fst (generateWxtDir sampleEnv sampleWxt reversed
                   sampleEntrypoints staleDisk))
       "/project/.generated/types/paths.d.ts"
     = Some (text (pathsEntry sampleEnv ["b.js"; "a.html"; "c.png"])).
Proof.
  destruct (generation_is_deterministic sampleEnv sampleWxt inOrder reversed
              sampleEntrypoints emptyDisk staleDisk)
    as (_ & _ & H & _).
  - reflexivity.
  - reflexivity.
  - apply (H sampleFinal
             {| path := "/project/.generated/types/paths.d.ts";
                text := text (pathsEntry sampleEnv
                                ["b.js"; "a.html"; "c.png"]);
                tsReference := Some true |}).
    + vm_compute. reflexivity.
    + apply permutation_overlapping. intros l. apply Permutation_refl.
    + apply permutation_overlapping. intros l. apply Permutation_rev.
    + vm_compute. reflexivity.
    + vm_compute. reflexivity.
    + vm_compute. tauto.
    + vm_compute. reflexivity.
Defined.

(** The stale main declaration file is replaced in the second of these
    passes, and both disks end with the same files. *)
Example stale_file_is_replaced :
  files (fst (generateWxtDir sampleEnv sampleWxt reversed
                sampleEntrypoints staleDisk))
    "/project/.generated/wxt.d.ts"
  = files (fst (generateWxtDir sampleEnv sampleWxt inOrder
                  sampleEntrypoints emptyDisk))
      "/project/.generated/wxt.d.ts".
Proof. vm_compute. reflexivity. Qed.

Lemma main_declaration_references_witness :
  relativeToOutputRoot sampleEnv sampleWxt "types/paths.d.ts"
  = "types/paths.d.ts"
  /\ ~ In (fileReference sampleEnv sampleWxt "wxt.d.ts")
         (mainLines sampleEnv sampleWxt (removelast sampleFinal)).
Proof.
  destruct (main_declaration_references sampleEnv sampleWxt
              (removelast sampleFinal))
    as (_ & _ & _ & _ & _ & _ & _ & H & I).
  split.
  - apply (H ["project"; ".generated"] ["types"; "paths.d.ts"]);
      try reflexivity.
    discriminate.
  - intros Hin. apply (proj1 I) in Hin as (e & Hin & Hc & Hd).
    vm_compute in Hin.
    repeat (destruct Hin as [<- | Hin]; [vm_compute in Hd; discriminate|]).
    exact Hin.
Defined.



(** * Further properties of the code *)

(** ** Sorting does not depend on the arrangement *)

Lemma ascii_compare_refl (a : ascii) : Ascii.compare a a = Eq.
Proof. unfold Ascii.compare. apply N.compare_refl. Qed.

Lemma ascii_compare_lt_trans (a b c : ascii) :
  Ascii.compare a b = Lt -> Ascii.compare b c = Lt -> Ascii.compare a c = Lt.
Proof.
  unfold Ascii.compare. rewrite !N.compare_lt_iff. apply N.lt_trans.
Qed.

Lemma compare_lt_trans (x y z : string) :
  String.compare x y = Lt -> String.compare y z = Lt ->
  String.compare x z = Lt.
Proof.
  revert y z. induction x as [|a x IH]; intros [|b y] [|c z]; cbn;
    try discriminate; try reflexivity.
  destruct (Ascii.compare a b) eqn:Eab; try discriminate.
  - apply Ascii.compare_eq_iff in Eab. subst b.
    destruct (Ascii.compare a c); try discriminate; [apply IH | reflexivity].
  - intros _.
    destruct (Ascii.compare b c) eqn:Ebc; try discriminate.
    + apply Ascii.compare_eq_iff in Ebc. subst c. now rewrite Eab.
    + now rewrite (ascii_compare_lt_trans _ _ _ Eab Ebc).
Qed.

Lemma compare_refl (x : string) : String.compare x x = Eq.
Proof.
  induction x as [|a x IH]; [reflexivity|].
  cbn. now rewrite ascii_compare_refl.
Qed.

Lemma leb_trans (x y z : string) :
  String.leb x y = true -> String.leb y z = true -> String.leb x z = true.
Proof.
  unfold String.leb.
  destruct (String.compare x y) eqn:Exy; try discriminate; intros _;
    destruct (String.compare y z) eqn:Eyz; try discriminate; intros _.
  - apply String.compare_eq_iff in Exy, Eyz. subst.
    now rewrite compare_refl.
  - apply String.compare_eq_iff in Exy. subst. now rewrite Eyz.
  - apply String.compare_eq_iff in Eyz. subst. now rewrite Exy.
  - now rewrite (compare_lt_trans _ _ _ Exy Eyz).
Qed.

Lemma insert_insert (x y : string) (l : list string) :
  Js.insert x (Js.insert y l) = Js.insert y (Js.insert x l).
Proof.
  induction l as [|z l IH]; cbn.
  - destruct (String.leb x y) eqn:Exy, (String.leb y x) eqn:Eyx;
      try reflexivity.
    + now rewrite (String.leb_antisym _ _ Exy Eyx).
    + destruct (String.leb_total x y); congruence.
  - destruct (String.leb y z) eqn:Eyz, (String.leb x z) eqn:Exz; cbn;
      rewrite ?Eyz, ?Exz.
    + destruct (String.leb x y) eqn:Exy, (String.leb y x) eqn:Eyx;
        try reflexivity.
      * now rewrite (String.leb_antisym _ _ Exy Eyx).
      * destruct (String.leb_total x y); congruence.
    + assert (Exy : String.leb x y = false).
      { destruct (String.leb x y) eqn:E; [|reflexivity].
        now rewrite (leb_trans _ _ _ E Eyz) in Exz. }
      now rewrite Exy.
    + assert (Eyx : String.leb y x = false).
      { destruct (String.leb y x) eqn:E; [|reflexivity].
        now rewrite (leb_trans _ _ _ E Exz) in Eyz. }
      now rewrite Eyx.
    + now rewrite IH.
Qed.

Lemma sort_permutation (l l' : list string) :
  Permutation l l' -> Js.sort l = Js.sort l'.
Proof.
  induction 1 as [| x l l' _ IH | x y l | l l' l'' _ IH1 _ IH2]; cbn.
  - reflexivity.
  - now rewrite IH.
  - apply insert_insert.
  - now rewrite IH1.
Qed.

(** ** The comments of the overloads *)

Lemma trimEnd_empty_iff (s : string) :
  Js.trimEnd s = "" <-> allWhiteSpace s = true.
Proof.
  induction s as [|a s IH]; [easy|].
  cbn. destruct (Js.trimEnd s) as [|b t].
  - destruct (Js.isWhiteSpace a); cbn.
    + split; [intros _; now apply IH | reflexivity].
    + split; discriminate.
  - split; [discriminate|]. intros H.
    apply andb_true_iff in H as [_ H]. apply IH in H. discriminate.
Qed.

Lemma trimEnd_append (p s : string) :
  Js.trimEnd (p +++ s) =
  if allWhiteSpace s then Js.trimEnd p else p +++ Js.trimEnd s.
Proof.
  induction p as [|a p IH]; cbn [String.append].
  - destruct (allWhiteSpace s) eqn:E; [|reflexivity].
    now apply trimEnd_empty_iff.
  - cbn [Js.trimEnd]. rewrite IH.
    destruct (allWhiteSpace s) eqn:E; [reflexivity|].
    destruct (p +++ Js.trimEnd s) as [|b t] eqn:Ep; [|reflexivity].
    destruct p; [|discriminate]. cbn in Ep.
    apply trimEnd_empty_iff in Ep. congruence.
Qed.

Lemma trimEnd_ends_clean (s : string) :
  endsWithWhiteSpace (Js.trimEnd s) = false.
Proof.
  induction s as [|a s IH]; [reflexivity|].
  cbn [Js.trimEnd]. destruct (Js.trimEnd s) as [|b t] eqn:E.
  - destruct (Js.isWhiteSpace a) eqn:Ea; [reflexivity|]. cbn. exact Ea.
  - exact IH.
Qed.

Lemma trimEnd_prefix (s : string) :
  exists w, s = Js.trimEnd s +++ w /\ allWhiteSpace w = true.
Proof.
  induction s as [|a s (w & E & Hw)]; [now exists ""|].
  cbn [Js.trimEnd]. destruct (Js.trimEnd s) as [|b t] eqn:Et.
  - destruct (Js.isWhiteSpace a) eqn:Ea.
    + exists (String a s). split; [reflexivity|].
      cbn. rewrite Ea. now apply trimEnd_empty_iff.
    + exists w. split; [cbn; now rewrite E at 1|exact Hw].
  - exists w. split; [cbn; now rewrite E at 1|exact Hw].
Qed.

Lemma split_cons (c : ascii) (s : string) :
  exists x l, Js.split c s = x :: l.
Proof.
  destruct s as [|a s]; cbn; [eauto|].
  destruct (Ascii.eqb a c); [eauto|].
  destruct (Js.split c s); eauto.
Qed.

Lemma commentLines_structure (d t : option string) :
  commentLines d t =
  (if Js.truthy d then Js.split (ascii_of_nat 10) (orEmpty d) else [])
  ++ (if Js.truthy t
      then (if Js.truthy d then [""] else []) ++ [quoted (orEmpty t)]
      else []).
Proof.
  unfold commentLines.
  destruct t as [[|b t]|]; cbn [Js.truthy orEmpty];
    rewrite ?app_nil_r; try reflexivity;
    destruct d as [[|a d]|]; cbn [Js.truthy orEmpty]; try reflexivity.
  destruct (split_cons (ascii_of_nat 10) (String a d)) as (x & l & ->).
  now rewrite <- app_assoc.
Qed.

Lemma commentLines_nil_iff (d t : option string) :
  commentLines d t = [] <-> Js.truthy d = false /\ Js.truthy t = false.
Proof.
  rewrite commentLines_structure.
  destruct (Js.truthy t); cbn [app].
  - split; [|intros [_ H]; discriminate].
    intros H. apply app_eq_nil in H as [_ H].
    destruct (Js.truthy d); discriminate.
  - rewrite app_nil_r. destruct (Js.truthy d); [|easy].
    destruct (split_cons (ascii_of_nat 10) (orEmpty d)) as (x & l & ->).
    split; [discriminate | intros [H _]; discriminate].
Qed.

Lemma commentLine_trimEnd (line : string) :
  Js.trimEnd ("     * " +++ line) = commentLine line.
Proof. unfold commentLine. now rewrite trimEnd_append. Qed.

Lemma allWhiteSpace_append (a b : string) :
  allWhiteSpace (a +++ b) = allWhiteSpace a && allWhiteSpace b.
Proof.
  induction a as [|x a IH]; [reflexivity|].
  cbn [String.append allWhiteSpace]. now rewrite IH, andb_assoc.
Qed.

(** A quoted text is written after the star as it is. *)
Lemma commentLine_quoted (s : string) :
  commentLine (quoted s) = "     * " +++ quoted s.
Proof.
  unfold commentLine, quoted.
  replace (allWhiteSpace (Js.dq +++ s +++ Js.dq)) with false by reflexivity.
  f_equal. rewrite <- append_assoc, trimEnd_append.
  replace (allWhiteSpace Js.dq) with false by reflexivity.
  now rewrite append_assoc.
Qed.

(** X5: an overload has a comment exactly when its description or its
    translation is a non-empty string.  The comment is made of the lines
    of the description, then, after an empty line when both are there,
    the quoted translation, between the opening and the closing of a
    documentation comment.  A line is written after [     * ] with its
    trailing white space removed, a blank line as [     *], the quoted
    translation as it is: no line of the comment ends in white space. *)
Theorem overload_comment_lines (d t : option string) :
  let lines :=
    (if Js.truthy d then Js.split (ascii_of_nat 10) (orEmpty d) else [])
    ++ (if Js.truthy t
        then (if Js.truthy d then [""] else []) ++ [quoted (orEmpty t)]
        else []) in
  commentLines d t = lines
  /\ overloadComment d t =
     (if Js.truthy d || Js.truthy t
      then "/**" +++ Js.nl
           +++ Js.join Js.nl (map commentLine lines)
           +++ Js.nl +++ "     */" +++ Js.nl +++ "    "
      else "")
  /\ commentLine (quoted (orEmpty t)) = "     * " +++ quoted (orEmpty t)
  /\ forallb (fun line => negb (endsWithWhiteSpace line))
       (map commentLine lines) = true.
Proof.
  cbn zeta. rewrite <- commentLines_structure.
  repeat apply conj.
  - reflexivity.
  - unfold overloadComment.
    pose proof (commentLines_nil_iff d t) as N.
    replace (map (fun line => Js.trimEnd ("     * " +++ line))
               (commentLines d t))
      with (map commentLine (commentLines d t))
      by (apply map_ext; intros; symmetry; apply commentLine_trimEnd).
    destruct (commentLines d t) as [|x l].
    + destruct N as [N _]. destruct (N eq_refl) as [-> ->]. reflexivity.
    + destruct (Js.truthy d || Js.truthy t) eqn:E; [reflexivity|].
      apply orb_false_iff in E. destruct N as [_ N].
      specialize (N E). discriminate.
  - apply commentLine_quoted.
  - apply forallb_forall. intros line Hin.
    apply in_map_iff in Hin as (x & <- & _).
    rewrite <- commentLine_trimEnd. now rewrite trimEnd_ends_clean.
Qed.

(** ** Relative paths and their resolution *)

Lemma split_join_noSlash (l : list string) :
  forallb noSlash l = true -> l <> [] ->
  Js.split "/" (Js.join "/" l) = l.
Proof.
  induction l as [|s l IH]; [easy|].
  intros H _. cbn [forallb] in H. apply andb_true_iff in H as [Hs Hl].
  destruct l as [|t l].
  - now apply split_noSlash.
  - rewrite join_cons2, split_segment by exact Hs.
    f_equal. apply IH; [exact Hl | discriminate].
Qed.

Lemma normalizeSegments_last_empty (b : bool) (l st : list string) :
  Path.normalizeSegments b st (l ++ [""]) = Path.normalizeSegments b st l.
Proof.
  revert st. induction l as [|s l IH]; intros st; [reflexivity|].
  cbn [app Path.normalizeSegments].
  destruct (String.eqb s "" || String.eqb s "."); [apply IH|].
  destruct (Path.isDots s); [|apply IH].
  destruct st as [|top st']; [apply IH|].
  destruct (Path.isDots top); apply IH.
Qed.

Lemma clean_not_special (s : string) :
  clean s = true ->
  String.eqb s "" = false /\ String.eqb s "." = false
  /\ Path.isDots s = false.
Proof.
  unfold clean, Path.isDots. intros H.
  repeat (apply andb_true_iff in H as [H ?]).
  repeat match goal with
         | E : negb _ = true |- _ => apply negb_true_iff in E
         end.
  now repeat split.
Qed.

Lemma normalizeSegments_push (l st rest : list string) :
  forallb clean l = true ->
  Path.normalizeSegments false st (l ++ rest)
  = Path.normalizeSegments false (rev l ++ st) rest.
Proof.
  revert st. induction l as [|s l IH]; intros st H; [reflexivity|].
  cbn [forallb] in H. apply andb_true_iff in H as [Hs Hl].
  destruct (clean_not_special s Hs) as (E0 & E1 & E2).
  cbn [app Path.normalizeSegments]. rewrite E0, E1, E2. cbn [orb].
  rewrite IH by exact Hl. cbn [rev]. now rewrite <- app_assoc.
Qed.

Lemma map_dots_snoc (a : list string) (x : string) :
  map (fun _ : string => "..") (a ++ [x]) = ".." :: map (fun _ => "..") a.
Proof. induction a as [|y a IH]; cbn; [reflexivity | now rewrite IH]. Qed.

Lemma normalizeSegments_pop (a st rest : list string) :
  forallb clean a = true ->
  Path.normalizeSegments false (rev a ++ st)
    (map (fun _ => "..") a ++ rest)
  = Path.normalizeSegments false st rest.
Proof.
  induction a as [|x a IH] using rev_ind; intros H; [reflexivity|].
  rewrite forallb_app in H. apply andb_true_iff in H as [Ha Hx].
  cbn [forallb] in Hx. apply andb_true_iff in Hx as [Hx _].
  destruct (clean_not_special x Hx) as (_ & _ & E2).
  rewrite rev_app_distr, map_dots_snoc. cbn [rev app].
  cbn [Path.normalizeSegments]. cbn [String.eqb Ascii.eqb orb].
  change (Path.isDots "..") with true. cbn iota. rewrite E2.
  now apply IH.
Qed.

Lemma forallb_clean_noSlash (l : list string) :
  forallb clean l = true -> forallb noSlash l = true.
Proof.
  intros H. rewrite forallb_forall in *. intros x Hx.
  now apply clean_noSlash, H.
Qed.

(** [resolve] on an absolute directory of clean segments and a relative
    path: the segments of the path are resolved from the segments of the
    directory. *)
Lemma resolve_from (cwd : string) (dsegs rsegs : list string) :
  forallb clean dsegs = true -> forallb noSlash rsegs = true ->
  rsegs <> [] ->
  String.eqb (Js.join "/" rsegs) "" = false ->
  Path.isAbsolute (Js.join "/" rsegs) = false ->
  Path.resolve cwd ["/" +++ Js.join "/" dsegs; Js.join "/" rsegs]
  = "/" +++ Js.join "/" (Path.normalizeSegments false (rev dsegs) rsegs).
Proof.
  intros Hd Hr Hne He Ha.
  unfold Path.resolve. cbn [Path.resolveArgs].
  rewrite He, Ha.
  replace (String.eqb ("/" +++ Js.join "/" dsegs) "") with false
    by reflexivity.
  replace (Path.isAbsolute ("/" +++ Js.join "/" dsegs)) with true
    by (unfold Path.isAbsolute, Js.startsWith;
        cbn [String.append String.prefix];
        now destruct (Js.join "/" dsegs)).
  cbn iota beta. cbn [negb]. f_equal. f_equal.
  assert (Hsplit : Js.split "/" (Js.join "/" rsegs +++ "/" +++ "")
                   = rsegs ++ [""]).
  { rewrite <- (split_join_noSlash (rsegs ++ [""])).
    - now rewrite join_app_clean by (assumption || discriminate).
    - now rewrite forallb_app, Hr.
    - intros E. now apply app_eq_nil in E. }
  destruct dsegs as [|d dl].
  - change (Js.split "/" (("/" +++ Js.join "/" []) +++ "/"
                          +++ Js.join "/" rsegs +++ "/" +++ ""))
      with ("" :: "" :: Js.split "/" (Js.join "/" rsegs +++ "/" +++ "")).
    rewrite Hsplit. cbn [Path.normalizeSegments String.eqb orb rev].
    apply normalizeSegments_last_empty.
  - replace (("/" +++ Js.join "/" (d :: dl)) +++ "/"
             +++ Js.join "/" rsegs +++ "/" +++ "")
      with ("/" +++ Js.join "/" ((d :: dl) ++ rsegs ++ [""])).
    + change (Js.split "/" ("/" +++ Js.join "/" ((d :: dl) ++ rsegs ++ [""])))
        with ("" :: Js.split "/" (Js.join "/" ((d :: dl) ++ rsegs ++ [""]))).
      rewrite split_join_noSlash.
      * cbn [Path.normalizeSegments String.eqb orb].
        rewrite normalizeSegments_push by exact Hd.
        rewrite app_nil_r. apply normalizeSegments_last_empty.
      * rewrite !forallb_app, (forallb_clean_noSlash _ Hd), Hr. reflexivity.
      * discriminate.
    + rewrite join_app_clean
        by (discriminate || (intros E; now apply app_eq_nil in E)).
      rewrite (join_app_clean rsegs [""]) by (assumption || discriminate).
      now rewrite !append_assoc.
Qed.

Lemma startsWith_dots (l : list string) :
  Js.startsWith (Js.join "/" (".." :: l)) "." = true.
Proof. now destruct l. Qed.

Lemma noSlash_dots (a : list string) :
  forallb noSlash (map (fun _ : string => "..") a) = true.
Proof. induction a; [reflexivity | exact IHa]. Qed.

(** X7: the path the project configuration gives for a directory leads
    back to that directory: resolved from the output root, it is the
    directory, for an output root and a directory that are absolute paths
    of clean segments and a path that [normalizePath] keeps. *)
Theorem tsconfig_path_resolves_to_target (env : Env) (wxt : Wxt)
        (c a b : list string) :
  wxtDir (config wxt) = "/" +++ Js.join "/" (c ++ a) ->
  forallb clean (c ++ a) = true -> forallb clean (c ++ b) = true ->
  headsDiffer a b = true ->
  normalizePath env (Js.join "/" (map (fun _ => "..") a ++ b))
  = Js.join "/" (map (fun _ => "..") a ++ b) ->
  resolve env
    [ wxtDir (config wxt);
      getTsconfigPath env wxt ("/" +++ Js.join "/" (c ++ b)) ]
  = "/" +++ Js.join "/" (c ++ b).
Proof.
  intros E Ha Hb Hd Hn.
  unfold getTsconfigPath, relative, resolve.
  rewrite E, relative_common, Hn by assumption.
  rewrite forallb_app in Ha, Hb.
  apply andb_true_iff in Ha as [Hc Ha], Hb as [_ Hb].
  assert (Hca : forallb clean (c ++ a) = true)
    by now rewrite forallb_app, Hc, Ha.
  destruct a as [|x a].
  - cbn [map app]. rewrite app_nil_r in *.
    destruct b as [|y b].
    + change (Js.join "/" []) with "". cbn [Js.startsWith String.prefix orb].
      change ("./" +++ "") with (Js.join "/" ["."; ""]).
      rewrite resolve_from; try reflexivity; try assumption; [|discriminate].
      change (Path.normalizeSegments false (rev c) ["."; ""])
        with (rev (rev c)).
      now rewrite rev_involutive, app_nil_r.
    + pose proof (isAbsolute_join_clean _ Hb) as Habs.
      pose proof (join_clean_nonempty _ Hb ltac:(discriminate)) as Hne.
      unfold Path.isAbsolute in Habs.
      destruct (Js.startsWith (Js.join "/" (y :: b)) ".") eqn:Edot;
        rewrite ?Habs; cbn [orb].
      * rewrite resolve_from; try assumption;
          [|now apply forallb_clean_noSlash | discriminate].
        rewrite <- (app_nil_r (y :: b)) at 1.
        rewrite normalizeSegments_push by exact Hb.
        cbn [Path.normalizeSegments]. rewrite ?app_nil_r.
        now rewrite rev_app_distr, !rev_involutive.
      * change ("./" +++ Js.join "/" (y :: b))
          with (Js.join "/" ("." :: y :: b)).
        rewrite (resolve_from (cwd env) c ("." :: y :: b) Hc
                   (forallb_clean_noSlash _ Hb)
                   ltac:(discriminate) eq_refl eq_refl).
        change (Path.normalizeSegments false (rev c) ("." :: y :: b))
          with (Path.normalizeSegments false (rev c) (y :: b)).
        rewrite <- (app_nil_r (y :: b)) at 1.
        rewrite normalizeSegments_push by exact Hb.
        cbn [Path.normalizeSegments]. rewrite ?app_nil_r.
        now rewrite rev_app_distr, !rev_involutive.
  - set (ups := map (fun _ : string => "..") (x :: a)) in *.
    assert (Hups : exists l, ups ++ b = ".." :: l) by (cbn; eauto).
    destruct Hups as (l & El).
    rewrite El at 1 2. rewrite startsWith_dots. cbn [orb].
    rewrite resolve_from; try assumption.
    + rewrite rev_app_distr.
      unfold ups. rewrite normalizeSegments_pop by exact Ha.
      rewrite <- (app_nil_r b) at 1.
      rewrite normalizeSegments_push by exact Hb.
      cbn [Path.normalizeSegments]. rewrite ?app_nil_r.
      now rewrite rev_app_distr, !rev_involutive.
    + unfold ups. rewrite forallb_app, noSlash_dots.
      now apply forallb_clean_noSlash.
    + rewrite El. discriminate.
    + rewrite El. now destruct l.
    + rewrite El. now destruct l.
Qed.

(** [resolve] takes the arguments after an absolute one as the segments
    they are. *)
Lemma resolveArgs_clean (psegs : list string) :
  forallb clean psegs = true -> psegs <> [] ->
  Path.resolveArgs psegs = (Js.join "/" psegs +++ "/", false).
Proof.
  induction psegs as [|p l IH]; [easy|]. intros H _.
  cbn [forallb] in H. apply andb_true_iff in H as [Hp Hl].
  pose proof (join_clean_nonempty [p] ltac:(cbn; now rewrite Hp)
                ltac:(discriminate)) as Hne.
  pose proof (isAbsolute_join_clean [p] ltac:(cbn; now rewrite Hp)) as Ha.
  cbn [Js.join String.concat] in Hne, Ha.
  destruct l as [|q l].
  - cbn [Path.resolveArgs]. now rewrite Hne, Ha.
  - cbn [Path.resolveArgs]. cbn [Path.resolveArgs] in IH.
    rewrite (IH Hl ltac:(discriminate)).
    rewrite Hne, Ha. rewrite join_cons2. now rewrite !append_assoc.
Qed.

Lemma resolveArgs_join (psegs : list string) :
  forallb clean psegs = true -> psegs <> [] ->
  Path.resolveArgs psegs = Path.resolveArgs [Js.join "/" psegs].
Proof.
  intros H Hne. rewrite (resolveArgs_clean _ H Hne).
  cbn [Path.resolveArgs].
  now rewrite (join_clean_nonempty _ H Hne), (isAbsolute_join_clean _ H).
Qed.

Lemma resolve_segments (cwd : string) (dsegs psegs : list string) :
  forallb clean dsegs = true -> forallb clean psegs = true ->
  psegs <> [] ->
  Path.resolve cwd (("/" +++ Js.join "/" dsegs) :: psegs)
  = "/" +++ Js.join "/" (dsegs ++ psegs).
Proof.
  intros Hd Hp Hne. rewrite <- (resolve_clean cwd) by assumption.
  unfold Path.resolve.
  change (Path.resolveArgs (cwd :: ("/" +++ Js.join "/" dsegs) :: psegs))
    with (let '(acc, abs) :=
            (let '(acc, abs) := Path.resolveArgs psegs in
             if abs then (acc, true)
             else if String.eqb ("/" +++ Js.join "/" dsegs) ""
                  then (acc, false)
                  else (("/" +++ Js.join "/" dsegs) +++ "/" +++ acc,
                        Path.isAbsolute ("/" +++ Js.join "/" dsegs))) in
          if abs then (acc, true)
          else if String.eqb cwd "" then (acc, false)
               else (cwd +++ "/" +++ acc, Path.isAbsolute cwd)).
  rewrite (resolveArgs_join _ Hp Hne). reflexivity.
Qed.

Lemma isAbsolute_slash (s : string) : Path.isAbsolute ("/" +++ s) = true.
Proof.
  unfold Path.isAbsolute, Js.startsWith. cbn [String.append String.prefix].
  now destruct s.
Qed.

(** An absolute argument makes [resolve] drop the ones before it. *)
Lemma resolve_absolute_second (cwd d : string) (psegs : list string) :
  forallb clean psegs = true ->
  Path.resolve cwd [d; "/" +++ Js.join "/" psegs]
  = "/" +++ Js.join "/" psegs.
Proof.
  intros Hp. rewrite <- (resolve_absolute_clean cwd psegs Hp) at 2.
  unfold Path.resolve. cbn [Path.resolveArgs].
  replace (String.eqb ("/" +++ Js.join "/" psegs) "") with false
    by reflexivity.
  rewrite isAbsolute_slash. reflexivity.
Qed.

(** Climbing out of [a] and descending into [b]. *)
Lemma normalizeSegments_climb (c a b : list string) :
  forallb clean a = true -> forallb clean b = true ->
  Path.normalizeSegments false (rev (c ++ a))
    (map (fun _ => "..") a ++ b)
  = c ++ b.
Proof.
  intros Ha Hb.
  rewrite rev_app_distr, normalizeSegments_pop by exact Ha.
  rewrite <- (app_nil_r b) at 1.
  rewrite normalizeSegments_push by exact Hb.
  cbn [Path.normalizeSegments].
  rewrite ?app_nil_r. now rewrite rev_app_distr, !rev_involutive.
Qed.

(** [resolve] on a path that starts with [./]. *)
Lemma resolve_dot_slash (cwd : string) (c a b : list string) :
  forallb clean (c ++ a) = true -> forallb clean b = true ->
  Path.resolve cwd
    [ "/" +++ Js.join "/" (c ++ a);
      "./" +++ Js.join "/" (map (fun _ => "..") a ++ b) ]
  = "/" +++ Js.join "/" (c ++ b).
Proof.
  intros Hca Hb.
  assert (Ha : forallb clean a = true).
  { rewrite forallb_app in Hca. now apply andb_true_iff in Hca as [_ ?]. }
  set (r := map (fun _ : string => "..") a ++ b).
  assert (Hr : forallb noSlash r = true).
  { unfold r. rewrite forallb_app, noSlash_dots.
    now apply forallb_clean_noSlash. }
  assert (E : exists l, "./" +++ Js.join "/" r = Js.join "/" ("." :: l)
                        /\ forallb noSlash l = true
                        /\ Path.normalizeSegments false (rev (c ++ a)) l
                           = Path.normalizeSegments false (rev (c ++ a)) r).
  { destruct r as [|x r'] eqn:Er.
    - exists [""]. repeat split.
    - exists (x :: r'). repeat split. exact Hr. }
  destruct E as (l & -> & Hl & En).
  rewrite (resolve_from cwd (c ++ a) ("." :: l) Hca).
  - change (Path.normalizeSegments false (rev (c ++ a)) ("." :: l))
      with (Path.normalizeSegments false (rev (c ++ a)) l).
    rewrite En. unfold r. now rewrite normalizeSegments_climb.
  - exact Hl.
  - discriminate.
  - now destruct l.
  - now destruct l.
Qed.

(** ** What the pass leaves on the disk *)

Section Written.
Variable env : Env.
Variable wxt : Wxt.

Lemma isWithin_refl (d : string) : isWithin d d = true.
Proof. unfold isWithin. now rewrite String.eqb_refl. Qed.

(** X11: the pass writes at the paths of the file entries resolved from
    the output root and nowhere else: a file at any other path is after
    the pass what it was before. *)
Theorem pass_touches_only_its_entries
        (completionOrder : CompletionOrder)
        (entrypoints : list Entrypoint) (k : Disk)
        (final : list WxtDirEntry) :
  snd (collectEntries env wxt entrypoints (ensured wxt k)) = Ok final ->
  (forall l x, In x (completionOrder l) -> In x l) ->
  map (@path) (absoluteFileEntries env wxt final)
  = map (fun f => resolve env [wxtDir (config wxt); path f])
      (fileEntries final)
  /\ forall q,
       ~ In q (map (@path) (absoluteFileEntries env wxt final)) ->
       files (fst (generateWxtDir env wxt completionOrder entrypoints k)) q
       = files k q.
Proof.
  intros H Hsub. split.
  - unfold absoluteFileEntries. now rewrite map_map.
  - intros q Hq. rewrite generateWxtDir_run, H. cbn [fst].
    rewrite writeEach_files_other; [reflexivity|].
    intros Hin. apply Hq. apply in_map_iff in Hin as (f & <- & Hf).
    apply in_map, Hsub, Hf.
Qed.

(** X12: the main declaration entry is the last entry of a pass that
    has collected its entries.  When the pass returns and no other entry
    is resolved to [<wxtDir>/wxt.d.ts], the file at that path holds the
    text of the main declaration entry, whatever the runtime makes of the
    overlapping writes. *)
Theorem main_declaration_path_is_written
        (completionOrder : CompletionOrder)
        (entrypoints : list Entrypoint) (k : Disk)
        (final : list WxtDirEntry) :
  snd (collectEntries env wxt entrypoints (ensured wxt k)) = Ok final ->
  overlapping completionOrder ->
  snd (generateWxtDir env wxt completionOrder entrypoints k) = Ok tt ->
  let target := resolve env [wxtDir (config wxt); "wxt.d.ts"] in
  let k' := fst (generateWxtDir env wxt completionOrder entrypoints k) in
  exists entries,
    final = entries ++ [FileEntry (getMainDeclarationEntry env wxt entries)]
    /\ ((forall g, In g (absoluteFileEntries env wxt entries) ->
                   path g <> target) ->
        files k' target
        = Some (text (getMainDeclarationEntry env wxt entries))).
Proof.
  intros H O _ target k'.
  destruct (main_entry_last env wxt entrypoints _ final H) as (entries & E).
  exists entries. split; [exact E|]. intros Hother.
  set (main := {| path := target;
                  text := text (getMainDeclarationEntry env wxt entries);
                  tsReference := None |}).
  assert (Habs : absoluteFileEntries env wxt final
                 = absoluteFileEntries env wxt entries ++ [main]).
  { rewrite E. unfold absoluteFileEntries, fileEntries.
    now rewrite flat_map_app, map_app. }
  unfold k'. rewrite generateWxtDir_run, H. cbn [fst].
  apply (writeEach_overlapping completionOrder _ _ main O).
  - rewrite Habs. apply in_or_app. right. now left.
  - unfold alone. rewrite Habs, filter_app.
    rewrite filter_none.
    + cbn [filter app path main]. now rewrite String.eqb_refl.
    + intros g Hg. apply String.eqb_neq. now apply Hother.
Qed.

End Written.

(** ** The content of the paths and i18n declarations *)

Section Content.
Variable env : Env.
Variable wxt : Wxt.

(** X3: when nothing exists at the path of the default locale, the i18n
    declaration is generated without error and without touching the disk,
    from the messages of the empty object; a locale file that parses to
    the empty object gives the same entry. *)
Theorem missing_locale_is_the_empty_object (k : Disk) :
  files k (defaultLocalePath env wxt) = None ->
  dirs k (defaultLocalePath env wxt) = false ->
  getI18nDeclarationEntry env wxt k
  = (k, Ok (i18nEntry (parseI18nMessages [])))
  /\ forall k' raw,
       files k' (defaultLocalePath env wxt) = Some raw ->
       JSON_parse env raw = Some [] ->
       snd (getI18nDeclarationEntry env wxt k')
       = snd (getI18nDeclarationEntry env wxt k).
Proof.
  intros Hf Hd.
  assert (E : getI18nDeclarationEntry env wxt k
              = (k, Ok (i18nEntry (parseI18nMessages [])))).
  { unfold getI18nDeclarationEntry, bind.
    now rewrite loadMessages_run, Hf, Hd. }
  split; [exact E|].
  intros k' raw Hf' Hp. rewrite E.
  unfold getI18nDeclarationEntry, bind.
  now rewrite loadMessages_run, Hf', Hp.
Qed.

(** X2: the union of the paths declaration is [never] exactly when there
    is no path.  When the rendered union holds no replacement pattern, the
    file is the template around one member for each normalized path, none
    dropped and none merged, in ascending order of code units. *)
Theorem paths_file_of_pattern_free_paths (paths : list string) :
  (orNever (renderUnions env paths) = "    | never" <-> paths = [])
  /\ (patternFree (renderUnions env paths) = true ->
      exists sorted,
        Permutation (map (normalizePath env) paths) sorted
        /\ ascending sorted
        /\ text (pathsEntry env paths) =
           pathsBefore
           +++ match sorted with
               | [] => "    | never"
               | _ => Js.join Js.nl (map unionMember sorted)
               end
           +++ pathsAfter).
Proof.
  split.
  - split; [|now intros ->].
    destruct paths as [|p paths]; [reflexivity|].
    rewrite renderUnions_cons. unfold renderUnions.
    destruct (Js.sort (map (normalizePath env) (p :: paths)))
      as [|x l] eqn:E.
    + apply (proj1 (sort_nil_iff _)) in E. discriminate.
    + destruct l; discriminate.
  - intros H.
    exists (Js.sort (map (normalizePath env) paths)).
    split; [apply sort_perm|]. split; [apply sort_ascending|].
    rewrite pathsEntry_patternFree by exact H.
    destruct paths as [|p paths]; [reflexivity|].
    rewrite renderUnions_cons. unfold renderUnions.
    destruct (Js.sort (map (normalizePath env) (p :: paths)))
      as [|x l] eqn:E; [|reflexivity].
    apply (proj1 (sort_nil_iff _)) in E. discriminate.
Qed.

(** X1: the paths declaration file does not depend on the order in which
    the paths were discovered: two arrangements of the same paths give the
    same entry. *)
Theorem paths_file_ignores_discovery_order (paths paths' : list string) :
  Permutation paths paths' ->
  pathsEntry env paths = pathsEntry env paths'.
Proof.
  intros P. unfold pathsEntry, renderUnions.
  now rewrite (sort_permutation _ _ (Permutation_map (normalizePath env) P)).
Qed.

End Content.

(** ** Where the entries are written *)

Section Locations.
Variable env : Env.
Variable wxt : Wxt.

(** X13: under an output root that is an absolute path of clean
    segments, an entry with a relative path of clean segments is written
    below the output root, and an entry with an absolute path is written
    at that path, wherever it lies. *)
Theorem entry_write_location (dsegs psegs : list string)
        (before after : list WxtDirEntry) (f : WxtDirFileEntry) :
  wxtDir (config wxt) = "/" +++ Js.join "/" dsegs ->
  forallb clean dsegs = true -> forallb clean psegs = true ->
  psegs <> [] ->
  (path f = Js.join "/" psegs ->
   In {| path := "/" +++ Js.join "/" (dsegs ++ psegs);
         text := text f; tsReference := tsReference f |}
      (absoluteFileEntries env wxt (before ++ FileEntry f :: after)))
  /\ (path f = "/" +++ Js.join "/" psegs ->
      In f (absoluteFileEntries env wxt (before ++ FileEntry f :: after))).
Proof.
  intros Hw Hd Hp Hne.
  assert (Hin : forall g,
            g = {| path := resolve env [wxtDir (config wxt); path f];
                   text := text f; tsReference := tsReference f |} ->
            In g (absoluteFileEntries env wxt
                    (before ++ FileEntry f :: after))).
  { intros g ->. unfold absoluteFileEntries, fileEntries.
    apply in_map_iff. exists f. split; [reflexivity|].
    rewrite flat_map_app. apply in_or_app. right. now left. }
  split; intros E; apply Hin; unfold resolve; rewrite Hw, E.
  - now rewrite resolve_clean.
  - rewrite resolve_absolute_second by assumption.
    destruct f as [p t r]. cbn in *. now subst p.
Qed.

(** X4: under a public directory that is an absolute path of clean
    segments, the default locale is read from
    [<publicDir>/_locales/<default_locale>/messages.json]; without a
    default locale, or with the empty one, the segment is left out and the
    path is [<publicDir>/_locales/messages.json]. *)
Theorem default_locale_path (segs : list string) :
  publicDir (config wxt) = "/" +++ Js.join "/" segs ->
  forallb clean segs = true ->
  match default_locale (config wxt) with
  | None | Some "" =>
      defaultLocalePath env wxt
      = "/" +++ Js.join "/" (segs ++ ["_locales"; "messages.json"])
  | Some l =>
      clean l = true ->
      defaultLocalePath env wxt
      = "/" +++ Js.join "/" (segs ++ ["_locales"; l; "messages.json"])
  end.
Proof.
  intros Hp Hs. unfold defaultLocalePath, resolve. rewrite Hp.
  assert (E0 : Path.resolve (cwd env)
                 ["/" +++ Js.join "/" segs; "_locales"; ""; "messages.json"]
               = "/" +++ Js.join "/" (segs ++ ["_locales"; "messages.json"])).
  { rewrite <- (resolve_segments (cwd env)) by easy. reflexivity. }
  destruct (default_locale (config wxt)) as [[|a l]|]; [exact E0| |exact E0].
  intros Hl. apply resolve_segments; [assumption| |discriminate].
  cbn [forallb]. now rewrite Hl.
Qed.

(** X8: a path of the project configuration always starts with a dot or
    a slash; the output root itself is written [./] when [normalizePath]
    keeps the empty path. *)
Theorem tsconfig_path_is_explicit (p : string) :
  (Js.startsWith (getTsconfigPath env wxt p) "."
   || Js.startsWith (getTsconfigPath env wxt p) "/" = true)
  /\ (normalizePath env "" = "" ->
      getTsconfigPath env wxt (wxtDir (config wxt)) = "./").
Proof.
  split.
  - unfold getTsconfigPath.
    set (res := normalizePath env (relative env (wxtDir (config wxt)) p)).
    destruct (Js.startsWith res "." || Js.startsWith res "/") eqn:E;
      [exact E | reflexivity].
  - intros Hn. unfold getTsconfigPath, relative, Path.relative.
    now rewrite String.eqb_refl, Hn.
Qed.

Lemma quoted_join_empty (names : list string) :
  Js.join " | " (map (quoted) names) = "" <-> names = [].
Proof.
  split; [|now intros ->].
  destruct names as [|n [|m l]]; [reflexivity| |]; discriminate.
Qed.

(** X6: the last overload of the i18n declaration is on the union of the
    quoted keys and carries no comment; the union is the empty string
    exactly when there is no message, and the file then declares the one
    overload with nothing for the type of [messageName]. *)
Theorem union_overload_of_no_message (messages : list Message) :
  unionOverload messages
  = "    " +++ overloadOn
                 (Js.join " | " (map (fun m => quoted (name m)) messages))
  /\ (Js.join " | " (map (fun m => quoted (name m)) messages) = ""
      <-> messages = [])
  /\ text (i18nEntry []) = i18nBefore +++ "    " +++ overloadOn "" +++ i18nAfter.
Proof.
  split; [reflexivity|]. split.
  - rewrite <- (map_map name quoted), quoted_join_empty.
    split; [apply map_eq_nil | now intros ->].
  - rewrite i18nEntry_text. reflexivity.
Qed.

(** X9: the pass ends with the first error among the hook of the public
    paths, the loading of the default locale and the hook of the types, in
    this order; no file has been written then, and the types directory
    has been created. *)
Theorem first_error_aborts_before_writing
        (completionOrder : CompletionOrder)
        (entrypoints : list Entrypoint) (k : Disk) (e : Error) :
  prepare_publicPaths (hooks wxt) (bundlePaths env wxt entrypoints)
  = Throw e
  \/ (exists paths,
        prepare_publicPaths (hooks wxt) (bundlePaths env wxt entrypoints)
        = Ok paths
        /\ (snd (loadMessages env wxt (ensured wxt k)) = Throw e
            \/ exists messages,
                 snd (loadMessages env wxt (ensured wxt k)) = Ok messages
                 /\ prepare_types (hooks wxt)
                      (coreEntries env wxt (pathsEntry env paths)
                         (i18nEntry messages))
                    = Throw e)) ->
  generateWxtDir env wxt completionOrder entrypoints k
  = (ensured wxt k, Throw e)
  /\ files (ensured wxt k) = files k
  /\ written (ensured wxt k) = written k
  /\ dirs (ensured wxt k) (typesDir (config wxt)) = true.
Proof.
  intros H.
  split; [|split; [reflexivity | split; [reflexivity|]]].
  - rewrite generateWxtDir_run, collectEntries_run. cbn [snd].
    destruct H as [-> | (paths & -> & [-> | (messages & -> & ->)])];
      reflexivity.
  - unfold ensured, ensureDir. cbn [fst dirs].
    rewrite isWithin_refl. apply orb_true_r.
Qed.

End Locations.

Section References.
Variable env : Env.
Variable wxt : Wxt.

(** X14: the file reference of the main declaration leads to the file
    the pass writes: for an entry with an absolute path, below the output
    root or not, and for an entry with a relative path, the path of the
    directive resolved from the output root is the path the entry is
    written at. *)
Theorem file_reference_leads_to_the_written_file
        (c a b : list string) (p : string) :
  wxtDir (config wxt) = "/" +++ Js.join "/" (c ++ a) ->
  forallb clean (c ++ a) = true -> forallb clean (c ++ b) = true ->
  headsDiffer a b = true ->
  (p = "/" +++ Js.join "/" (c ++ b)
   \/ (a = [] /\ b <> [] /\ p = Js.join "/" b)) ->
  let target := Js.join "/" (map (fun _ => "..") a ++ b) in
  normalizePath env target = target ->
  fileReference env wxt p
  = "/// <reference types=" +++ quoted ("./" +++ target) +++ " />"
  /\ resolve env [wxtDir (config wxt); "./" +++ target]
     = resolve env [wxtDir (config wxt); p]
  /\ resolve env [wxtDir (config wxt); p] = "/" +++ Js.join "/" (c ++ b).
Proof.
  intros Hw Hca Hcb Hd Hp target Hn.
  assert (Hb : forallb clean b = true).
  { rewrite forallb_app in Hcb. now apply andb_true_iff in Hcb as [_ ?]. }
  assert (Hres : resolve env [wxtDir (config wxt); p]
                 = "/" +++ Js.join "/" (c ++ b)).
  { unfold resolve. rewrite Hw.
    destruct Hp as [-> | (-> & Hne & ->)].
    - now apply resolve_absolute_second.
    - rewrite app_nil_r in *. now apply resolve_clean. }
  assert (Hrel : relativeToOutputRoot env wxt p = target).
  { unfold relativeToOutputRoot. rewrite Hres.
    unfold relative. rewrite Hw. now apply relative_common. }
  repeat apply conj.
  - unfold fileReference. now rewrite Hrel, Hn.
  - rewrite Hres. unfold resolve. rewrite Hw.
    now apply resolve_dot_slash.
  - exact Hres.
Qed.

End References.

(** ** The sample project, continued *)

Lemma paths_file_ignores_discovery_order_witness :
  pathsEntry sampleEnv ["b.js"; "a.html"; "c.png"]
  = pathsEntry sampleEnv ["c.png"; "b.js"; "a.html"].
Proof.
  apply (paths_file_ignores_discovery_order sampleEnv).
  apply Permutation_sym, (Permutation_cons_app ["b.js"; "a.html"] []).
  now rewrite app_nil_r.
Defined.

Lemma paths_file_of_pattern_free_paths_witness :
  exists sorted,
    Permutation ["b.js"; "a.html"; "c.png"] sorted
    /\ ascending sorted
    /\ text (pathsEntry sampleEnv ["b.js"; "a.html"; "c.png"]) =
       pathsBefore
       +++ match sorted with
           | [] => "    | never"
           | _ => Js.join Js.nl (map unionMember sorted)
           end
       +++ pathsAfter.
Proof.
  exact (proj2 (paths_file_of_pattern_free_paths sampleEnv
                  ["b.js"; "a.html"; "c.png"]) eq_refl).
Defined.

Lemma missing_locale_is_the_empty_object_witness :
  getI18nDeclarationEntry sampleEnv sampleWxt emptyDisk
  = (emptyDisk, Ok (i18nEntry (parseI18nMessages []))).
Proof.
  exact (proj1 (missing_locale_is_the_empty_object sampleEnv sampleWxt
                  emptyDisk eq_refl eq_refl)).
Defined.

Lemma default_locale_path_witness :
  defaultLocalePath sampleEnv sampleWxt
  = "/project/public/_locales/en/messages.json".
Proof.
  exact (default_locale_path sampleEnv sampleWxt ["project"; "public"]
           eq_refl eq_refl eq_refl).
Defined.

Lemma overload_comment_lines_witness :
  overloadComment
    (Some ("Greeting." +++ Js.nl +++ "  " +++ Js.nl +++ "Shown first.  "))
    (Some "Hello")
  = "/**" +++ Js.nl
    +++ Js.join Js.nl
          [ "     * Greeting.";
            "     *";
            "     * Shown first.";
            "     *";
            "     * " +++ quoted "Hello" ]
    +++ Js.nl +++ "     */" +++ Js.nl +++ "    ".
Proof.
  exact (proj1 (proj2 (overload_comment_lines
                         (Some ("Greeting." +++ Js.nl +++ "  " +++ Js.nl
                                +++ "Shown first.  "))
                         (Some "Hello")))).
Defined.

Lemma union_overload_of_no_message_witness :
  Js.join " | " (map (fun m => quoted (name m)) []) = "".
Proof.
  exact (proj2 (proj1 (proj2 (union_overload_of_no_message [])))
           eq_refl).
Defined.

Lemma tsconfig_path_resolves_to_target_witness :
  resolve sampleEnv
    [ "/project/.generated";
      getTsconfigPath sampleEnv sampleWxt "/project/src" ]
  = "/project/src".
Proof.
  exact (tsconfig_path_resolves_to_target sampleEnv sampleWxt
           ["project"] [".generated"] ["src"]
           eq_refl eq_refl eq_refl eq_refl eq_refl).
Defined.

Lemma tsconfig_path_is_explicit_witness :
  getTsconfigPath sampleEnv sampleWxt "/project/.generated" = "./".
Proof.
  exact (proj2 (tsconfig_path_is_explicit sampleEnv sampleWxt "") eq_refl).
Defined.

Lemma first_error_aborts_before_writing_witness :
  generateWxtDir sampleEnv throwingWxt inOrder sampleEntrypoints emptyDisk
  = (ensured throwingWxt emptyDisk, Throw (Thrown "module"))
  /\ files (ensured throwingWxt emptyDisk) = files emptyDisk
  /\ written (ensured throwingWxt emptyDisk) = written emptyDisk
  /\ dirs (ensured throwingWxt emptyDisk) "/project/.generated/types" = true.
Proof.
  apply (first_error_aborts_before_writing sampleEnv throwingWxt).
  right. eexists. split; [reflexivity|].
  right. eexists. split; reflexivity.
Defined.

Lemma pass_touches_only_its_entries_witness :
  files (fst (generateWxtDir sampleEnv sampleWxt reversed sampleEntrypoints
                staleDisk))
    "/project/src/main.ts"
  = files staleDisk "/project/src/main.ts".
Proof.
  destruct (pass_touches_only_its_entries sampleEnv sampleWxt reversed
              sampleEntrypoints staleDisk sampleFinal) as (_ & H).
  - vm_compute. reflexivity.
  - intros l x. apply in_rev.
  - apply H. vm_compute.
    intros [C|[C|[C|[C|[C|[]]]]]]; discriminate.
Defined.

Lemma main_declaration_path_is_written_witness :
  exists entries,
    sampleFinal
    = entries ++ [FileEntry (getMainDeclarationEntry sampleEnv sampleWxt
                               entries)]
    /\ files (fst (generateWxtDir sampleEnv sampleWxt reversed
                     sampleEntrypoints staleDisk))
         "/project/.generated/wxt.d.ts"
       = Some (text (getMainDeclarationEntry sampleEnv sampleWxt entries)).
Proof.
  destruct (main_declaration_path_is_written sampleEnv sampleWxt reversed
              sampleEntrypoints staleDisk sampleFinal)
    as (entries & E & H).
  - vm_compute. reflexivity.
  - apply permutation_overlapping. intros l. apply Permutation_rev.
  - vm_compute. reflexivity.
  - exists entries. split; [exact E|]. apply H.
    assert (En : entries = removelast sampleFinal)
      by (rewrite E; now rewrite removelast_last).
    rewrite En. vm_compute.
    intros g [<-|[<-|[<-|[<-|[]]]]]; discriminate.
Defined.

Lemma entry_write_location_witness :
  In {| path := "/project/.generated/types/mine.d.ts";
        text := "// mine"; tsReference := Some true |}
     (absoluteFileEntries sampleEnv sampleWxt
        [ ModuleEntry "wxt/vite-builder-env";
          FileEntry {| path := "types/mine.d.ts"; text := "// mine";
                       tsReference := Some true |} ]).
Proof.
  exact (proj1 (entry_write_location sampleEnv sampleWxt
                  ["project"; ".generated"] ["types"; "mine.d.ts"]
                  [ModuleEntry "wxt/vite-builder-env"] []
                  {| path := "types/mine.d.ts"; text := "// mine";
                     tsReference := Some true |}
                  eq_refl eq_refl eq_refl ltac:(discriminate))
           eq_refl).
Defined.

Lemma file_reference_leads_to_the_written_file_witness :
  fileReference sampleEnv sampleWxt "/project/shared/api.d.ts"
  = "/// <reference types=" +++ quoted "./../shared/api.d.ts" +++ " />"
  /\ resolve sampleEnv ["/project/.generated"; "./../shared/api.d.ts"]
     = resolve sampleEnv ["/project/.generated"; "/project/shared/api.d.ts"]
  /\ resolve sampleEnv ["/project/.generated"; "/project/shared/api.d.ts"]
     = "/project/shared/api.d.ts".
Proof.
  exact (file_reference_leads_to_the_written_file sampleEnv sampleWxt
           ["project"] [".generated"] ["shared"; "api.d.ts"]
           "/project/shared/api.d.ts"
           eq_refl eq_refl eq_refl eq_refl (or_introl eq_refl) eq_refl).
Defined.
